(** * Memory game (assets/js/memory-game.js): a shallow embedding

    The script keeps one mutable [state] object, a board of card elements in
    the document, two best scores in [localStorage], one interval timer for
    the clock display and one-shot timeouts for mismatched pairs.  The
    embedding below passes all of that explicitly as a [World]; every
    function of the script becomes a function on worlds, and the event
    listeners become the cases of [listener]. *)

From Stdlib Require Import QArith Ascii String.
From Stdlib Require Qcanon.
From stdpp Require Import base numbers list strings gmap pretty.

Local Open Scope Z_scope.
Local Open Scope string_scope.
Local Open Scope list_scope.
Local Open Scope nat_scope.

(** ** Arrays and the Fisher-Yates shuffle *)

Module Shuffle.

(** [Math.random()] is an input of the program.  The script only ever uses it
    as [Math.floor(Math.random() * (i + 1))], an integer of [0 .. i]; the
    source of randomness is a sequence of raw draws, the [k]-th call reduces
    the [k]-th draw to the requested range. *)
Definition random_index (entropy : nat → nat) (k bound : nat) : nat :=
  entropy k `mod` bound.

Section Arrays.
Context {A : Type}.

(** [[arr[i], arr[j]] = [arr[j], arr[i]]]: both reads happen first, then
    [arr[i]] and [arr[j]] are written in that order.  The loop of [shuffle]
    only calls it with [j <= i < arr.length] ([swap_in_range] below); out of
    range the array is left alone here. *)
Definition swap (i j : nat) (arr : list A) : list A :=
  match arr !! i, arr !! j with
  | Some x, Some y => <[j := x]> (<[i := y]> arr)
  | _, _ => arr
  end.

(** The body of [for (let i = arr.length - 1; i > 0; i--)], started at [i],
    the [k]-th draw being the next one. *)
Fixpoint shuffle_from (entropy : nat → nat) (k i : nat) (arr : list A) : list A :=
  match i with
  | 0 => arr
  | S i' =>
      let j := random_index entropy k (i + 1) in
      shuffle_from entropy (S k) i' (swap i j arr)
  end.

Definition shuffle (entropy : nat → nat) (k : nat) (arr : list A) : list A :=
  shuffle_from entropy k (length arr - 1) arr.

(** Number of calls to [Math.random] made by [shuffle arr]. *)
Definition shuffle_draws (arr : list A) : nat := length arr - 1.

End Arrays.





End Shuffle.

(** ** Numbers and strings of the language *)

Module JsNum.

(** A Number value: NaN, an infinity, or a finite double, held as the exact
    rational it denotes.  The sign of zero is not kept. *)
Inductive JsNumber :=
| NaN
| Infinity (negative : bool)
| Finite (q : Q).

(** The counters of the script ([moves], [matches]) start at 0 and only grow
    by [++]; they are natural numbers here. *)
Definition of_nat (n : nat) : JsNumber := Finite (inject_Z (Z.of_nat n)).

(** [x < y] for a counter [x] and a Number [y]: false when [y] is NaN. *)
Definition nat_lt (x : nat) (y : JsNumber) : bool :=
  match y with
  | NaN => false
  | Infinity negative => negb negative
  | Finite q => negb (Qle_bool q (inject_Z (Z.of_nat x)))
  end.

(** [String(n)] for a counter, and for an integer. *)
Definition String_ (n : nat) : string := pretty n.
Definition String_Z (n : Z) : string := pretty n.

(** [s.padStart(n, fill)] for a one-character [fill]. *)
Fixpoint repeat_char (n : nat) (fill : ascii) : string :=
  match n with
  | 0 => ""
  | S n' => String fill (repeat_char n' fill)
  end.

Definition padStart (n : nat) (fill : ascii) (s : string) : string :=
  repeat_char (n - String.length s) fill +:+ s.

(** *** [Number(s)] on a string (StringToNumber) *)

(** The double nearest to the positive rational [p / q], ties to even. *)
Definition round_double (p q : positive) : JsNumber :=
  let e0 := (Z.log2 (Z.pos p) - Z.log2 (Z.pos q) - 52)%Z in
  let scaled (e : Z) : Z * Z :=
    if (0 <=? e)%Z then (Z.pos p, Z.pos q * 2 ^ e)%Z
    else (Z.pos p * 2 ^ (- e), Z.pos q)%Z in
  let e1 := (let '(n, d) := scaled e0 in if (2 ^ 52 * d <=? n)%Z then e0 else e0 - 1)%Z in
  let e := Z.max e1 (-1074) in
  let '(n, d) := scaled e in
  let m := (n / d)%Z in
  let r := (n mod d)%Z in
  let m' := (if (d <? 2 * r)%Z then m + 1
             else if (2 * r =? d)%Z then (if Z.even m then m else m + 1)
             else m)%Z in
  if (0 <=? e)%Z then
    if (2 ^ 1024 <=? m' * 2 ^ e)%Z then Infinity false
    else Finite (inject_Z (m' * 2 ^ e))
  else Finite (Qred (Qmake m' (Z.to_pos (2 ^ (- e))))).

Definition negate (x : JsNumber) : JsNumber :=
  match x with
  | NaN => NaN
  | Infinity negative => Infinity (negb negative)
  | Finite q => Finite (Qred (- q))
  end.

(** The Number for the mathematical value [m * 10 ^ e], [0 <= m]. *)
Definition of_decimal (m e : Z) : JsNumber :=
  match m with
  | Z.pos p =>
      if (0 <=? e)%Z then round_double (p * Z.to_pos (10 ^ e)) 1
      else round_double p (Z.to_pos (10 ^ (- e)))
  | _ => Finite 0
  end.

Definition digit_value (radix : Z) (c : ascii) : option Z :=
  let n := Z.of_nat (nat_of_ascii c) in
  let v := (if (48 <=? n)%Z && (n <=? 57)%Z then n - 48
            else if (97 <=? n)%Z && (n <=? 102)%Z then n - 87
            else if (65 <=? n)%Z && (n <=? 70)%Z then n - 55
            else radix)%Z in
  if (v <? radix)%Z then Some v else None.

(** The longest prefix of digits of the radix: how many there are, the value
    they add to [acc], and the rest of the string. *)
Fixpoint digits (radix : Z) (count : nat) (acc : Z) (s : string) : nat * Z * string :=
  match s with
  | String c s' =>
      match digit_value radix c with
      | Some v => digits radix (S count) (acc * radix + v) s'
      | None => (count, acc, s)
      end
  | EmptyString => (count, acc, s)
  end.

(** TAB, LF, VT, FF, CR and SP; white space outside ASCII is not recognised. *)
Definition is_white_space (c : ascii) : bool :=
  let n := nat_of_ascii c in
  bool_decide (n = 9 ∨ n = 10 ∨ n = 11 ∨ n = 12 ∨ n = 13 ∨ n = 32).

Fixpoint trim_start (s : string) : string :=
  match s with
  | String c s' => if is_white_space c then trim_start s' else s
  | EmptyString => s
  end.

Definition trim (s : string) : string :=
  String.rev (trim_start (String.rev (trim_start s))).

(** NonDecimalIntegerLiteral, after its [0b], [0o] or [0x]: at least one digit. *)
Definition non_decimal (radix : Z) (s : string) : JsNumber :=
  match digits radix 0 0 s with
  | (S _, v, "") => of_decimal v 0
  | _ => NaN
  end.

(** ExponentPart, which may be absent: [e] or [E], an optional sign, digits. *)
Definition exponent_part (s : string) : option Z :=
  match s with
  | "" => Some 0%Z
  | String c s' =>
      if bool_decide (c = "e"%char ∨ c = "E"%char) then
        let '(negative, s'') :=
          match s' with
          | String "-" t => (true, t)
          | String "+" t => (false, t)
          | _ => (false, s')
          end in
        match digits 10 0 0 s'' with
        | (S _, v, "") => Some (if negative : bool then (- v)%Z else v)
        | _ => None
        end
      else None
  end.

(** StrUnsignedDecimalLiteral. *)
Definition unsigned_decimal (s : string) : JsNumber :=
  if bool_decide (s = "Infinity") then Infinity false else
  let '(ni, vi, s1) := digits 10 0 0 s in
  let '(nf, v, s2) :=
    match s1 with
    | String "." t => digits 10 0 vi t
    | _ => (0, vi, s1)
    end in
  if bool_decide (ni + nf = 0) then NaN else
  match exponent_part s2 with
  | Some e => of_decimal v (e - Z.of_nat nf)
  | None => NaN
  end.

Definition Number_ (s : string) : JsNumber :=
  match trim s with
  | "" => Finite 0
  | String "0" (String "x" t) | String "0" (String "X" t) => non_decimal 16 t
  | String "0" (String "o" t) | String "0" (String "O" t) => non_decimal 8 t
  | String "0" (String "b" t) | String "0" (String "B" t) => non_decimal 2 t
  | String "-" t => negate (unsigned_decimal t)
  | String "+" t => unsigned_decimal t
  | t => unsigned_decimal t
  end.

End JsNum.

(** ** The game *)

Module Game.
Import JsNum.

(** *** Data *)

(** The keys of [DIFFICULTIES], which are the values [state.difficulty] takes. *)
Inductive Difficulty := easy | hard.

Global Instance Difficulty_eq_dec : EqDecision Difficulty.
Proof. solve_decision. Defined.

Record Profile : Type := { cols : nat; rows : nat; pairs : nat }.

Definition DIFFICULTIES (d : Difficulty) : Profile :=
  match d with
  | easy => {| cols := 4; rows := 3; pairs := 6 |}
  | hard => {| cols := 6; rows := 4; pairs := 12 |}
  end.

Definition Difficulty_key (d : Difficulty) : string :=
  match d with easy => "easy" | hard => "hard" end.

(** An entry of [GAME_DATA] and a card object of the deck; [icon] holds the
    icon class of the markup. *)
Record Item : Type := { name : string; icon : string }.

Definition GAME_DATA : list Item := [
  {| name := "Python"; icon := "bi-filetype-py" |};
  {| name := "SQL"; icon := "bi-database" |};
  {| name := "ML"; icon := "bi-robot" |};
  {| name := "Tableau"; icon := "bi-bar-chart-fill" |};
  {| name := "Docker"; icon := "bi-box" |};
  {| name := "Git"; icon := "bi-git" |};
  {| name := "Cloud"; icon := "bi-cloud-fill" |};
  {| name := "Excel"; icon := "bi-file-earmark-excel" |};
  {| name := "Code"; icon := "bi-code-slash" |};
  {| name := "Terminal"; icon := "bi-terminal-fill" |};
  {| name := "CPU"; icon := "bi-cpu-fill" |};
  {| name := "Diagram"; icon := "bi-diagram-3-fill" |}
].

(** A [.mg-card] element: its [data-index] and the two classes the script
    toggles on it. *)
Record CardEl : Type := { data_index : nat; is_flipped : bool; is_matched : bool }.

(** A reference to a card element: its address in [card_elements]. *)
Abbreviation ref := nat.

(** [state.bestScores]: [null] or a Number per difficulty. *)
Record BestScores : Type := { easy_best : option JsNumber; hard_best : option JsNumber }.

Definition best_get (mode : Difficulty) (b : BestScores) : option JsNumber :=
  match mode with easy => easy_best b | hard => hard_best b end.

Definition best_set (mode : Difficulty) (v : option JsNumber) (b : BestScores) : BestScores :=
  match mode with
  | easy => {| easy_best := v; hard_best := hard_best b |}
  | hard => {| easy_best := easy_best b; hard_best := v |}
  end.

(** The [state] object. *)
Record State : Type := Build_State {
  difficulty : Difficulty;
  deck : list Item;  (* card objects *)
  moves : nat;
  matches : nat;
  firstCard : option ref;
  secondCard : option ref;
  lockBoard : bool;
  gameStarted : bool;
  paused : bool;
  timerInterval : option positive;
  startTime : Z;
  elapsedMs : Z;
  bestScores : BestScores
}.

Definition set_difficulty (v : Difficulty) (x : State) : State :=
  Build_State v (deck x) (moves x) (matches x) (firstCard x) (secondCard x) (lockBoard x)
    (gameStarted x) (paused x) (timerInterval x) (startTime x) (elapsedMs x) (bestScores x) .
Definition set_deck (v : list Item) (x : State) : State :=
  Build_State (difficulty x) v (moves x) (matches x) (firstCard x) (secondCard x)
    (lockBoard x) (gameStarted x) (paused x) (timerInterval x) (startTime x) (elapsedMs x)
    (bestScores x) .
Definition set_moves (v : nat) (x : State) : State :=
  Build_State (difficulty x) (deck x) v (matches x) (firstCard x) (secondCard x)
    (lockBoard x) (gameStarted x) (paused x) (timerInterval x) (startTime x) (elapsedMs x)
    (bestScores x) .
Definition set_matches (v : nat) (x : State) : State :=
  Build_State (difficulty x) (deck x) (moves x) v (firstCard x) (secondCard x) (lockBoard x)
    (gameStarted x) (paused x) (timerInterval x) (startTime x) (elapsedMs x) (bestScores x) .
Definition set_firstCard (v : option ref) (x : State) : State :=
  Build_State (difficulty x) (deck x) (moves x) (matches x) v (secondCard x) (lockBoard x)
    (gameStarted x) (paused x) (timerInterval x) (startTime x) (elapsedMs x) (bestScores x) .
Definition set_secondCard (v : option ref) (x : State) : State :=
  Build_State (difficulty x) (deck x) (moves x) (matches x) (firstCard x) v (lockBoard x)
    (gameStarted x) (paused x) (timerInterval x) (startTime x) (elapsedMs x) (bestScores x) .
Definition set_lockBoard (v : bool) (x : State) : State :=
  Build_State (difficulty x) (deck x) (moves x) (matches x) (firstCard x) (secondCard x) v
    (gameStarted x) (paused x) (timerInterval x) (startTime x) (elapsedMs x) (bestScores x) .
Definition set_gameStarted (v : bool) (x : State) : State :=
  Build_State (difficulty x) (deck x) (moves x) (matches x) (firstCard x) (secondCard x)
    (lockBoard x) v (paused x) (timerInterval x) (startTime x) (elapsedMs x) (bestScores x) .
Definition set_paused (v : bool) (x : State) : State :=
  Build_State (difficulty x) (deck x) (moves x) (matches x) (firstCard x) (secondCard x)
    (lockBoard x) (gameStarted x) v (timerInterval x) (startTime x) (elapsedMs x)
    (bestScores x) .
Definition set_timerInterval (v : option positive) (x : State) : State :=
  Build_State (difficulty x) (deck x) (moves x) (matches x) (firstCard x) (secondCard x)
    (lockBoard x) (gameStarted x) (paused x) v (startTime x) (elapsedMs x) (bestScores x) .
Definition set_startTime (v : Z) (x : State) : State :=
  Build_State (difficulty x) (deck x) (moves x) (matches x) (firstCard x) (secondCard x)
    (lockBoard x) (gameStarted x) (paused x) (timerInterval x) v (elapsedMs x) (bestScores x)
    .
Definition set_elapsedMs (v : Z) (x : State) : State :=
  Build_State (difficulty x) (deck x) (moves x) (matches x) (firstCard x) (secondCard x)
    (lockBoard x) (gameStarted x) (paused x) (timerInterval x) (startTime x) v (bestScores x)
    .
Definition set_bestScores (v : BestScores) (x : State) : State :=
  Build_State (difficulty x) (deck x) (moves x) (matches x) (firstCard x) (secondCard x)
    (lockBoard x) (gameStarted x) (paused x) (timerInterval x) (startTime x) (elapsedMs x) v.

(** What the script reads and writes of the document.  The grid style of the
    board and the wording around the numbers of [#mgBest] are left out. *)
Record Dom : Type := Build_Dom {
  card_elements : list CardEl;  (* every .mg-card element created so far, by address *)
  board_cards : list ref;  (* the children of #mgBoard, in document order *)
  board_disabled : bool;  (* #mgBoard has class is-disabled *)
  startBtn_disabled : bool;
  restartBtn_disabled : bool;
  pauseBtn_disabled : bool;
  pauseBtn_text : string;
  win_shown : bool;  (* #mgWin has class is-show *)
  movesDisplay : option string;  (* text of #mgMoves, when the page has it *)
  matchesDisplay : option string;  (* text of #mgMatches *)
  timeDisplay : option string;  (* text of #mgTime *)
  bestScoreDisplay : option BestScores  (* the two scores shown in #mgBest *)
}.

Definition set_card_elements (v : list CardEl) (x : Dom) : Dom :=
  Build_Dom v (board_cards x) (board_disabled x) (startBtn_disabled x)
    (restartBtn_disabled x) (pauseBtn_disabled x) (pauseBtn_text x) (win_shown x)
    (movesDisplay x) (matchesDisplay x) (timeDisplay x) (bestScoreDisplay x) .
Definition set_board_cards (v : list ref) (x : Dom) : Dom :=
  Build_Dom (card_elements x) v (board_disabled x) (startBtn_disabled x)
    (restartBtn_disabled x) (pauseBtn_disabled x) (pauseBtn_text x) (win_shown x)
    (movesDisplay x) (matchesDisplay x) (timeDisplay x) (bestScoreDisplay x) .
Definition set_board_disabled (v : bool) (x : Dom) : Dom :=
  Build_Dom (card_elements x) (board_cards x) v (startBtn_disabled x) (restartBtn_disabled x)
    (pauseBtn_disabled x) (pauseBtn_text x) (win_shown x) (movesDisplay x) (matchesDisplay x)
    (timeDisplay x) (bestScoreDisplay x) .
Definition set_startBtn_disabled (v : bool) (x : Dom) : Dom :=
  Build_Dom (card_elements x) (board_cards x) (board_disabled x) v (restartBtn_disabled x)
    (pauseBtn_disabled x) (pauseBtn_text x) (win_shown x) (movesDisplay x) (matchesDisplay x)
    (timeDisplay x) (bestScoreDisplay x) .
Definition set_restartBtn_disabled (v : bool) (x : Dom) : Dom :=
  Build_Dom (card_elements x) (board_cards x) (board_disabled x) (startBtn_disabled x) v
    (pauseBtn_disabled x) (pauseBtn_text x) (win_shown x) (movesDisplay x) (matchesDisplay x)
    (timeDisplay x) (bestScoreDisplay x) .
Definition set_pauseBtn_disabled (v : bool) (x : Dom) : Dom :=
  Build_Dom (card_elements x) (board_cards x) (board_disabled x) (startBtn_disabled x)
    (restartBtn_disabled x) v (pauseBtn_text x) (win_shown x) (movesDisplay x)
    (matchesDisplay x) (timeDisplay x) (bestScoreDisplay x) .
Definition set_pauseBtn_text (v : string) (x : Dom) : Dom :=
  Build_Dom (card_elements x) (board_cards x) (board_disabled x) (startBtn_disabled x)
    (restartBtn_disabled x) (pauseBtn_disabled x) v (win_shown x) (movesDisplay x)
    (matchesDisplay x) (timeDisplay x) (bestScoreDisplay x) .
Definition set_win_shown (v : bool) (x : Dom) : Dom :=
  Build_Dom (card_elements x) (board_cards x) (board_disabled x) (startBtn_disabled x)
    (restartBtn_disabled x) (pauseBtn_disabled x) (pauseBtn_text x) v (movesDisplay x)
    (matchesDisplay x) (timeDisplay x) (bestScoreDisplay x) .
Definition set_movesDisplay (v : option string) (x : Dom) : Dom :=
  Build_Dom (card_elements x) (board_cards x) (board_disabled x) (startBtn_disabled x)
    (restartBtn_disabled x) (pauseBtn_disabled x) (pauseBtn_text x) (win_shown x) v
    (matchesDisplay x) (timeDisplay x) (bestScoreDisplay x) .
Definition set_matchesDisplay (v : option string) (x : Dom) : Dom :=
  Build_Dom (card_elements x) (board_cards x) (board_disabled x) (startBtn_disabled x)
    (restartBtn_disabled x) (pauseBtn_disabled x) (pauseBtn_text x) (win_shown x)
    (movesDisplay x) v (timeDisplay x) (bestScoreDisplay x) .
Definition set_timeDisplay (v : option string) (x : Dom) : Dom :=
  Build_Dom (card_elements x) (board_cards x) (board_disabled x) (startBtn_disabled x)
    (restartBtn_disabled x) (pauseBtn_disabled x) (pauseBtn_text x) (win_shown x)
    (movesDisplay x) (matchesDisplay x) v (bestScoreDisplay x) .
Definition set_bestScoreDisplay (v : option BestScores) (x : Dom) : Dom :=
  Build_Dom (card_elements x) (board_cards x) (board_disabled x) (startBtn_disabled x)
    (restartBtn_disabled x) (pauseBtn_disabled x) (pauseBtn_text x) (win_shown x)
    (movesDisplay x) (matchesDisplay x) (timeDisplay x) v.

(** What the script uses of the browser: the clock, the random numbers, the
    storage and the timers. *)
Record Env : Type := Build_Env {
  clock : nat → Z;  (* the value of the n-th call to Date.now() *)
  clock_reads : nat;  (* calls to Date.now() so far *)
  entropy : nat → nat;  (* the n-th draw of Math.random() *)
  drawn : nat;  (* calls to Math.random() so far *)
  localStorage : gmap string string;
  intervals : list positive;  (* handles of the running setInterval timers *)
  timeouts : list (positive * nat);  (* pending setTimeout callbacks: handle and delay, oldest first *)
  next_handle : positive;  (* the handle the next timer gets *)
  endGame_calls : nat  (* instrumentation: how many times endGame has run *)
}.

Definition set_clock (v : nat → Z) (x : Env) : Env :=
  Build_Env v (clock_reads x) (entropy x) (drawn x) (localStorage x) (intervals x)
    (timeouts x) (next_handle x) (endGame_calls x) .
Definition set_clock_reads (v : nat) (x : Env) : Env :=
  Build_Env (clock x) v (entropy x) (drawn x) (localStorage x) (intervals x) (timeouts x)
    (next_handle x) (endGame_calls x) .
Definition set_entropy (v : nat → nat) (x : Env) : Env :=
  Build_Env (clock x) (clock_reads x) v (drawn x) (localStorage x) (intervals x) (timeouts x)
    (next_handle x) (endGame_calls x) .
Definition set_drawn (v : nat) (x : Env) : Env :=
  Build_Env (clock x) (clock_reads x) (entropy x) v (localStorage x) (intervals x)
    (timeouts x) (next_handle x) (endGame_calls x) .
Definition set_localStorage (v : gmap string string) (x : Env) : Env :=
  Build_Env (clock x) (clock_reads x) (entropy x) (drawn x) v (intervals x) (timeouts x)
    (next_handle x) (endGame_calls x) .
Definition set_intervals (v : list positive) (x : Env) : Env :=
  Build_Env (clock x) (clock_reads x) (entropy x) (drawn x) (localStorage x) v (timeouts x)
    (next_handle x) (endGame_calls x) .
Definition set_timeouts (v : list (positive * nat)) (x : Env) : Env :=
  Build_Env (clock x) (clock_reads x) (entropy x) (drawn x) (localStorage x) (intervals x) v
    (next_handle x) (endGame_calls x) .
Definition set_next_handle (v : positive) (x : Env) : Env :=
  Build_Env (clock x) (clock_reads x) (entropy x) (drawn x) (localStorage x) (intervals x)
    (timeouts x) v (endGame_calls x) .
Definition set_endGame_calls (v : nat) (x : Env) : Env :=
  Build_Env (clock x) (clock_reads x) (entropy x) (drawn x) (localStorage x) (intervals x)
    (timeouts x) (next_handle x) v.

Record World : Type := Build_World { state : State; dom : Dom; env : Env }.

Definition with_state (f : State → State) (w : World) : World :=
  Build_World (f (state w)) (dom w) (env w).
Definition with_dom (f : Dom → Dom) (w : World) : World :=
  Build_World (state w) (f (dom w)) (env w).
Definition with_env (f : Env → Env) (w : World) : World :=
  Build_World (state w) (dom w) (f (env w)).

(** *** Running the script: a result or a TypeError, and the world left behind *)

Inductive Result (A : Type) : Type :=
| Return (a : A) (w : World)
| Throw (w : World).
Global Arguments Return {A} a w.
Global Arguments Throw {A} w.

Definition JS (A : Type) : Type := World → Result A.

Global Instance JS_ret : MRet JS := λ A a w, Return a w.
Global Instance JS_bind : MBind JS := λ A B k m w,
  match m w with
  | Return a w' => k a w'
  | Throw w' => Throw w'
  end.

Definition world_of {A} (r : Result A) : World :=
  match r with Return _ w => w | Throw w => w end.

Definition completes {A} (r : Result A) : bool :=
  match r with Return _ _ => true | Throw _ => false end.

Definition gets {A} (f : World → A) : JS A := λ w, Return (f w) w.
Definition modify_state (f : State → State) : JS unit := λ w, Return () (with_state f w).
Definition modify_dom (f : Dom → Dom) : JS unit := λ w, Return () (with_dom f w).
Definition modify_env (f : Env → Env) : JS unit := λ w, Return () (with_env f w).
Definition throw {A} : JS A := λ w, Throw w.

(** Reading a property of [o]: a TypeError when [o] is [null]. *)
Definition deref {A} (o : option A) : JS A :=
  match o with Some a => mret a | None => throw end.

(** The element a reference points to. *)
Definition element (card : ref) : JS CardEl :=
  d ← gets dom; deref (card_elements d !! card).

Definition classList (f : CardEl → CardEl) (card : ref) : JS unit :=
  modify_dom (λ d, set_card_elements (alter f card (card_elements d)) d).

Definition add_is_flipped (e : CardEl) : CardEl :=
  {| data_index := data_index e; is_flipped := true; is_matched := is_matched e |}.
Definition remove_is_flipped (e : CardEl) : CardEl :=
  {| data_index := data_index e; is_flipped := false; is_matched := is_matched e |}.
Definition add_is_matched (e : CardEl) : CardEl :=
  {| data_index := data_index e; is_flipped := is_flipped e; is_matched := true |}.

(** *** The browser *)

Definition Date_now : JS Z := λ w,
  Return (clock (env w) (clock_reads (env w)))
         (with_env (λ e, set_clock_reads (S (clock_reads e)) e) w).

(** [shuffle(arr)], drawing from the world's random numbers. *)
Definition shuffle {A} (arr : list A) : JS (list A) := λ w,
  Return (Shuffle.shuffle (entropy (env w)) (drawn (env w)) arr)
         (with_env (λ e, set_drawn (drawn e + Shuffle.shuffle_draws arr) e) w).

Definition localStorage_getItem (key : string) : JS (option string) :=
  gets (λ w, localStorage (env w) !! key).

Definition localStorage_setItem (key value : string) : JS unit :=
  modify_env (λ e, set_localStorage (<[key := value]> (localStorage e)) e).

(** [setInterval(tickTimer, 1000)]. *)
Definition setInterval : JS positive := λ w,
  let h := next_handle (env w) in
  Return h (with_env (λ e, set_next_handle (Pos.succ h) (set_intervals (intervals e ++ [h]) e)) w).

(** [setTimeout(callback, delay)]; the script has one callback, [flipBack]. *)
Definition setTimeout (delay : nat) : JS positive := λ w,
  let h := next_handle (env w) in
  Return h (with_env (λ e, set_next_handle (Pos.succ h)
                            (set_timeouts (timeouts e ++ [(h, delay)]) e)) w).

(** [clearInterval(h)] for the handle of an interval timer.  Handles are
    never given twice, so no pending timeout has it. *)
Definition clearInterval (h : positive) : JS unit :=
  modify_env (λ e, set_intervals (filter (λ i, i ≠ h) (intervals e)) e).

(** *** The functions of the script *)

Definition formatTime (s : Z) : string :=
  padStart 2 "0" (String_Z (s `div` 60)%Z) +:+ ":" +:+ padStart 2 "0" (String_Z (s `rem` 60)%Z).

Definition updateStats : JS unit :=
  s ← gets state;
  let pairs := pairs (DIFFICULTIES (difficulty s)) in
  modify_dom (λ d, set_movesDisplay ((λ _, String_ (moves s)) <$> movesDisplay d) d);;
  modify_dom (λ d, set_matchesDisplay
                     ((λ _, String_ (matches s) +:+ "/" +:+ String_ pairs) <$> matchesDisplay d) d).

Definition updateBestScoreDisplay : JS unit :=
  s ← gets state;
  modify_dom (λ d, set_bestScoreDisplay ((λ _, bestScores s) <$> bestScoreDisplay d) d).

(** [v ? Number(v) : null] for what [getItem] returned. *)
Definition stored_score (v : option string) : option JsNumber :=
  match v with
  | Some s => if bool_decide (s = "") then None else Some (Number_ s)
  | None => None
  end.

Definition loadBestScores : JS unit :=
  easy_item ← localStorage_getItem "mgBestMoves_easy";
  hard_item ← localStorage_getItem "mgBestMoves_hard";
  modify_state (λ s, set_bestScores (best_set easy (stored_score easy_item) (bestScores s)) s);;
  modify_state (λ s, set_bestScores (best_set hard (stored_score hard_item) (bestScores s)) s);;
  updateBestScoreDisplay.

Definition maybeUpdateBestScore : JS unit :=
  s ← gets state;
  let mode := difficulty s in
  let best := best_get mode (bestScores s) in
  if match best with None => true | Some b => nat_lt (moves s) b end then
    modify_state (λ s, set_bestScores (best_set mode (Some (of_nat (moves s))) (bestScores s)) s);;
    s ← gets state;
    localStorage_setItem ("mgBestMoves_" +:+ Difficulty_key mode) (String_ (moves s));;
    updateBestScoreDisplay
  else mret ().

Definition tickTimer : JS unit :=
  s ← gets state;
  now ← Date_now;
  let totalMs := (elapsedMs s + (now - startTime s))%Z in
  let secs := (totalMs `div` 1000)%Z in
  modify_dom (λ d, set_timeDisplay ((λ _, formatTime secs) <$> timeDisplay d) d).

Definition startTimer : JS unit :=
  now ← Date_now;
  modify_state (set_startTime now);;
  tickTimer;;
  h ← setInterval;
  modify_state (set_timerInterval (Some h)).

Definition stopTimer : JS unit :=
  s ← gets state;
  match timerInterval s with
  | None => mret ()
  | Some h =>
      clearInterval h;;
      modify_state (set_timerInterval None);;
      now ← Date_now;
      modify_state (λ s, set_elapsedMs (elapsedMs s + (now - startTime s))%Z s)
  end.

Definition resetTimer : JS unit :=
  stopTimer;;
  modify_state (set_elapsedMs 0%Z);;
  modify_dom (λ d, set_timeDisplay ((λ _, "00:00") <$> timeDisplay d) d).

Definition hideWin : JS unit := modify_dom (set_win_shown false).
Definition showWin : JS unit := modify_dom (set_win_shown true).

Definition generateDeck : JS (list Item) :=
  s ← gets state;
  let pairs := pairs (DIFFICULTIES (difficulty s)) in
  pool ← shuffle GAME_DATA;
  let chosen := take pairs pool in
  shuffle (chosen ++ chosen).

(** Setting [board.innerHTML]: one new element per card of the deck, with its
    position as [data-index] and neither class; they replace the children of
    the board. *)
Definition new_card (idx : nat) : CardEl :=
  {| data_index := idx; is_flipped := false; is_matched := false |}.

Definition renderBoard : JS unit :=
  s ← gets state;
  modify_dom (λ d,
    let base := length (card_elements d) in
    set_board_cards (seq base (length (deck s)))
      (set_card_elements (card_elements d ++ (new_card <$> seq 0 (length (deck s)))) d)).

Definition resetFlipState : JS unit :=
  modify_state (set_firstCard None);;
  modify_state (set_secondCard None);;
  modify_state (set_lockBoard false).

Definition endGame : JS unit :=
  modify_env (λ e, set_endGame_calls (S (endGame_calls e)) e);;
  stopTimer;;
  modify_state (set_gameStarted false);;
  modify_state (set_paused false);;
  modify_dom (set_board_disabled true);;
  modify_dom (set_pauseBtn_disabled true);;
  modify_dom (set_pauseBtn_text "Pause");;
  modify_dom (set_startBtn_disabled false);;
  showWin;;
  maybeUpdateBestScore.

(** The callback [checkMatch] hands to [setTimeout]. *)
Definition flipBack : JS unit :=
  s ← gets state;
  first ← deref (firstCard s);
  classList remove_is_flipped first;;
  s ← gets state;
  second ← deref (secondCard s);
  classList remove_is_flipped second;;
  resetFlipState.

Definition checkMatch : JS unit :=
  s ← gets state;
  first ← deref (firstCard s);
  e1 ← element first;
  let i1 := data_index e1 in
  second ← deref (secondCard s);
  e2 ← element second;
  let i2 := data_index e2 in
  x1 ← deref (deck s !! i1);
  x2 ← deref (deck s !! i2);
  if bool_decide (name x1 = name x2) then
    modify_state (λ s, set_matches (S (matches s)) s);;
    classList add_is_matched first;;
    classList add_is_matched second;;
    updateStats;;
    resetFlipState;;
    s ← gets state;
    if bool_decide (matches s = pairs (DIFFICULTIES (difficulty s))) then endGame else mret ()
  else
    modify_state (set_lockBoard true);;
    _ ← setTimeout 900;
    mret ().

Definition flipCard (card : ref) : JS unit :=
  s ← gets state;
  if negb (gameStarted s) then mret () else
  if paused s then mret () else
  if lockBoard s then mret () else
  e ← element card;
  if is_matched e then mret () else
  if is_flipped e then mret () else
  classList add_is_flipped card;;
  match firstCard s with
  | None => modify_state (set_firstCard (Some card))
  | Some _ =>
      modify_state (set_secondCard (Some card));;
      modify_state (λ s, set_moves (S (moves s)) s);;
      updateStats;;
      checkMatch
  end.

Definition prepareGame : JS unit :=
  hideWin;;
  resetTimer;;
  modify_state (set_moves 0);;
  modify_state (set_matches 0);;
  modify_state (set_gameStarted false);;
  modify_state (set_paused false);;
  resetFlipState;;
  updateStats;;
  deck ← generateDeck;
  modify_state (set_deck deck);;
  renderBoard;;
  modify_dom (set_board_disabled true);;
  modify_dom (set_startBtn_disabled false);;
  modify_dom (set_restartBtn_disabled true);;
  modify_dom (set_pauseBtn_disabled true);;
  modify_dom (set_pauseBtn_text "Pause").

Definition startGame : JS unit :=
  hideWin;;
  resetTimer;;
  modify_state (set_moves 0);;
  modify_state (set_matches 0);;
  modify_state (set_gameStarted true);;
  modify_state (set_paused false);;
  resetFlipState;;
  updateStats;;
  deck ← generateDeck;
  modify_state (set_deck deck);;
  renderBoard;;
  modify_dom (set_board_disabled false);;
  modify_dom (set_startBtn_disabled true);;
  modify_dom (set_restartBtn_disabled false);;
  modify_dom (set_pauseBtn_disabled false);;
  modify_dom (set_pauseBtn_text "Pause");;
  startTimer.

Definition pauseGame : JS unit :=
  s ← gets state;
  if negb (gameStarted s) || paused s then mret () else
  modify_state (set_paused true);;
  stopTimer;;
  modify_dom (set_board_disabled true);;
  modify_dom (set_pauseBtn_text "Resume").

Definition resumeGame : JS unit :=
  s ← gets state;
  if negb (gameStarted s) || negb (paused s) then mret () else
  modify_state (set_paused false);;
  modify_dom (set_board_disabled false);;
  modify_dom (set_pauseBtn_text "Pause");;
  startTimer.

(** *** The listeners, and the page as a transition system *)

(** What can happen to the page: a click inside the board (on a card of the
    board, or between the cards), a click on one of the three buttons, a
    change of the difficulty selector, a running interval timer firing, the
    oldest pending timeout firing. *)
Inductive Event :=
| BoardClick (card : option ref)
| StartClick
| RestartClick
| PauseClick
| DifficultyChange (value : Difficulty)
| IntervalFires (h : positive)
| TimeoutFires.

Definition board_onclick (card : option ref) : JS unit :=
  match card with
  | None => mret ()
  | Some card =>
      d ← gets dom;
      if board_disabled d then mret () else flipCard card
  end.

Definition pauseBtn_onclick : JS unit :=
  s ← gets state;
  if paused s then resumeGame else pauseGame.

Definition difficulty_onchange (value : Difficulty) : JS unit :=
  modify_state (set_difficulty value);;
  prepareGame.

(** An event that cannot happen in the world (a click on a card that is not
    on the board, a timer that is not running) runs nothing. *)
Definition listener (ev : Event) : JS unit :=
  match ev with
  | BoardClick None => board_onclick None
  | BoardClick (Some card) =>
      d ← gets dom;
      if bool_decide (card ∈ board_cards d) then board_onclick (Some card) else mret ()
  | StartClick => startGame
  | RestartClick => startGame
  | PauseClick => pauseBtn_onclick
  | DifficultyChange value => difficulty_onchange value
  | IntervalFires h =>
      e ← gets env;
      if bool_decide (h ∈ intervals e) then tickTimer else mret ()
  | TimeoutFires =>
      e ← gets env;
      match timeouts e with
      | [] => mret ()
      | _ :: pending => modify_env (set_timeouts pending);; flipBack
      end
  end.

(** An exception ends the listener it is thrown in; the page goes on from
    the world the listener left. *)
Definition step (ev : Event) (w : World) : World := world_of (listener ev w).

Definition run (evs : list Event) (w : World) : World := foldl (λ w ev, step ev w) w evs.

(** The events that start a game over: they run [startGame] or [prepareGame]. *)
Definition resets (ev : Event) : bool :=
  match ev with
  | StartClick | RestartClick | DifficultyChange _ => true
  | _ => false
  end.

(** The [state] literal, for the value of the difficulty selector. *)
Definition initial_state (d : Difficulty) : State :=
  {| difficulty := d; deck := []; moves := 0; matches := 0;
     firstCard := None; secondCard := None; lockBoard := false;
     gameStarted := false; paused := false;
     timerInterval := None; startTime := 0; elapsedMs := 0;
     bestScores := {| easy_best := None; hard_best := None |} |}.

(** The last two statements of the script. *)
Definition boot : JS unit := loadBestScores;; prepareGame.

(** The page when the script starts: the [state] literal and no timer. *)
Definition loaded_page (w : World) : Prop :=
  state w = initial_state (difficulty (state w)) ∧
  intervals (env w) = [] ∧ timeouts (env w) = [].

Inductive reachable : World → Prop :=
| reachable_boot w : loaded_page w → reachable (world_of (boot w))
| reachable_step ev w : reachable w → reachable (step ev w).

End Game.

(** ** Notions the properties are stated with *)

Module Props.
Import JsNum Game.

(** How many cards of [cards] carry the symbol [nm]. *)
Definition occurrences (nm : string) (cards : list Item) : nat :=
  length (filter (λ c, name c = nm) cards).

(** The symbols [generateDeck] picks in [w]: the first [pairs] entries of the
    shuffled pool. *)
Definition chosen_in (w : World) : list Item :=
  take (pairs (DIFFICULTIES (difficulty (state w))))
       (Shuffle.shuffle (entropy (env w)) (drawn (env w)) GAME_DATA).

(** The [data-index] of the element behind a reference. *)
Definition index_of (els : list CardEl) (c : ref) : option nat := data_index <$> els !! c.

(** The class [is-flipped], resp. [is-matched], of the element behind a reference. *)
Definition flipped (w : World) (c : ref) : option bool :=
  is_flipped <$> card_elements (dom w) !! c.
Definition matched (w : World) (c : ref) : option bool :=
  is_matched <$> card_elements (dom w) !! c.

(** The time the next call to [Date.now()] returns. *)
Definition now (w : World) : Z := clock (env w) (clock_reads (env w)).


(** The interval timer runs exactly while a game is started and not paused,
    and it is the only one. *)
Definition timer_ok (w : World) : Prop :=
  match timerInterval (state w) with
  | Some h => intervals (env w) = [h] ∧ gameStarted (state w) = true ∧ paused (state w) = false
  | None => intervals (env w) = [] ∧ (gameStarted (state w) = false ∨ paused (state w) = true)
  end.

(** A card that [checkMatch] can look up: its element exists and its
    [data-index] is a position of the deck. *)
Definition selectable (w : World) (c : ref) : Prop :=
  ∃ i, index_of (card_elements (dom w)) c = Some i ∧ i < length (deck (state w)).

(** The cards of the board are cards of the current deck, and the selection
    slots hold cards of the board. *)
Definition board_ok (w : World) : Prop :=
  (∀ c, c ∈ board_cards (dom w) → selectable w c) ∧
  (∀ c, firstCard (state w) = Some c → c ∈ board_cards (dom w)) ∧
  (∀ c, secondCard (state w) = Some c → c ∈ board_cards (dom w)).

End Props.

(** ** Sample pages *)

Module Sample.
Import JsNum Game.

(** A page with all four displays, a clock that advances one second per
    reading and some random draws, before the script has run. *)
Definition page (d : Difficulty) (storage : gmap string string) : World :=
  {| state := initial_state d;
     dom := {| card_elements := []; board_cards := []; board_disabled := false;
               startBtn_disabled := false; restartBtn_disabled := false;
               pauseBtn_disabled := true; pauseBtn_text := "Pause"; win_shown := false;
               movesDisplay := Some ""; matchesDisplay := Some ""; timeDisplay := Some "";
               bestScoreDisplay := Some {| easy_best := None; hard_best := None |} |};
     env := {| clock := λ n, (1000 * Z.of_nat n)%Z; clock_reads := 0;
               entropy := λ n, 7 * n + 3; drawn := 0;
               localStorage := storage; intervals := []; timeouts := [];
               next_handle := 1%positive; endGame_calls := 0 |} |}.

(** The easy board after the script has run, nothing stored. *)
Definition ready : World := world_of (boot (page easy ∅)).

(** A started game.  Its deck is
    ML Git Code Cloud ML Python Docker Code Docker Cloud Git Python,
    on the cards 12 to 23. *)
Definition playing : World := run [StartClick] ready.

(** The first card of the board is face-up and selected. *)
Definition one_up : World := run [BoardClick (Some 12)] playing.


(** Two cards that do not match are face-up, their timeout is pending. *)
Definition mismatched : World := run [BoardClick (Some 13)] one_up.

(** A paused game. *)
Definition on_hold : World := run [PauseClick] playing.

(** A page whose stored easy score is not a number. *)
Definition corrupt : World := world_of (boot (page easy (<["mgBestMoves_easy" := "abc"]> ∅))).

(** The six pairs of [Sample.playing], found in six moves. *)
Definition six_moves : list Event :=
  BoardClick ∘ Some <$> [12; 16; 13; 22; 14; 19; 15; 21; 17; 23; 18; 20].

End Sample.

(** ** Notions for the further properties *)

Module Extra.
Import JsNum Game Props.

(** The two decimal digits of a number below 100. *)
Definition digit_char (d : nat) : ascii := ascii_of_nat (48 + d).
Definition two_digits (n : nat) : string :=
  String (digit_char (n / 10)) (String (digit_char (n mod 10)) "").

(** A string of decimal digits only. *)
Fixpoint digits_only (s : string) : bool :=
  match s with
  | "" => true
  | String c s' => match digit_value 10 c with Some _ => digits_only s' | None => false end
  end.

(** The storage key of a difficulty. *)
Definition best_key (mode : Difficulty) : string := "mgBestMoves_" +:+ Difficulty_key mode.

(** What [loadBestScores] would read for a difficulty. *)
Definition stored (w : World) (mode : Difficulty) : option JsNumber :=
  stored_score (localStorage (env w) !! best_key mode).

(** The best scores in [state] are the ones in the storage. *)
Definition storage_ok (w : World) : Prop :=
  best_get easy (bestScores (state w)) = stored w easy
  ∧ best_get hard (bestScores (state w)) = stored w hard.

(** The counters stay within the game. *)
Definition counters_ok (w : World) : Prop :=
  matches (state w) ≤ moves (state w)
  ∧ matches (state w) ≤ pairs (DIFFICULTIES (difficulty (state w)))
  ∧ (gameStarted (state w) = true
     → matches (state w) < pairs (DIFFICULTIES (difficulty (state w))))
  ∧ (win_shown (dom w) = true
     → gameStarted (state w) = false
       ∧ matches (state w) = pairs (DIFFICULTIES (difficulty (state w)))).

(** The deck has two cards of each of its symbols, and the board shows it
    card by card. *)
Definition deck_ok (w : World) : Prop :=
  length (deck (state w)) = 2 * pairs (DIFFICULTIES (difficulty (state w)))
  ∧ Forall (λ c, occurrences (name c) (deck (state w)) = 2) (deck (state w))
  ∧ index_of (card_elements (dom w)) <$> board_cards (dom w)
    = Some <$> seq 0 (length (deck (state w))).

(** The controls of the page follow [gameStarted] and [paused]. *)
Definition controls_ok (w : World) : Prop :=
  board_disabled (dom w) = negb (gameStarted (state w)) || paused (state w)
  ∧ startBtn_disabled (dom w) = gameStarted (state w)
  ∧ pauseBtn_disabled (dom w) = negb (gameStarted (state w))
  ∧ pauseBtn_text (dom w) = (if paused (state w) then "Resume" else "Pause")
  ∧ (paused (state w) = true → gameStarted (state w) = true).

(** The displays the page has show the counters and the best scores. *)
Definition displays_ok (w : World) : Prop :=
  movesDisplay (dom w) = (λ _, String_ (moves (state w))) <$> movesDisplay (dom w)
  ∧ matchesDisplay (dom w)
    = (λ _, String_ (matches (state w)) +:+ "/"
            +:+ String_ (pairs (DIFFICULTIES (difficulty (state w)))))
        <$> matchesDisplay (dom w)
  ∧ bestScoreDisplay (dom w) = (λ _, bestScores (state w)) <$> bestScoreDisplay (dom w).

(** A locked board has both slots filled and a callback pending. *)
Definition lock_ok (w : World) : Prop :=
  lockBoard (state w) = true →
  is_Some (firstCard (state w)) ∧ is_Some (secondCard (state w)) ∧ timeouts (env w) ≠ [].

End Extra.

(** ** Theorems *)

Module ShuffleFacts.
Import Shuffle.

Lemma random_index_lt entropy k bound : 0 < bound → random_index entropy k bound < bound.
Proof. intros. unfold random_index. apply Nat.mod_upper_bound. lia. Qed.

Section Arrays.
Context {A : Type}.
Implicit Types arr : list A.

Lemma swap_length i j arr : length (swap i j arr) = length arr.
Proof.
  unfold swap. destruct (arr !! i), (arr !! j); try done.
  by rewrite !length_insert.
Qed.

Lemma swap_perm i j arr : swap i j arr ≡ₚ arr.
Proof.
  unfold swap.
  destruct (arr !! i) as [x|] eqn:Hi; [|done].
  destruct (arr !! j) as [y|] eqn:Hj; [|done].
  by apply Permutation_insert_swap.
Qed.

(** Inside the loop both positions exist, so the swap really exchanges them. *)
Lemma swap_in_range i j arr :
  i < length arr → j ≤ i →
  swap i j arr !! i = arr !! j ∧ swap i j arr !! j = arr !! i.
Proof.
  intros Hi Hj. unfold swap.
  destruct (lookup_lt_is_Some_2 arr i Hi) as [x Hx].
  destruct (lookup_lt_is_Some_2 arr j ltac:(lia)) as [y Hy].
  rewrite Hx, Hy. destruct (decide (i = j)) as [->|Hne].
  - rewrite list_lookup_insert_eq by (rewrite length_insert; lia).
    split; congruence.
  - rewrite list_lookup_insert_ne by lia.
    rewrite list_lookup_insert_eq by lia.
    rewrite list_lookup_insert_eq by (rewrite length_insert; lia). done.
Qed.

Lemma shuffle_from_perm entropy i : ∀ k arr, shuffle_from entropy k i arr ≡ₚ arr.
Proof.
  induction i as [|i IH]; intros k arr; simpl; [done|].
  rewrite IH. apply swap_perm.
Qed.

Lemma shuffle_perm entropy k arr : shuffle entropy k arr ≡ₚ arr.
Proof. apply shuffle_from_perm. Qed.

Lemma shuffle_length entropy k arr : length (shuffle entropy k arr) = length arr.
Proof. apply Permutation_length, shuffle_perm. Qed.


End Arrays.




End ShuffleFacts.

Module GameFacts.
Import JsNum Game Props.

(** Runs the script on a world given field by field. *)
Ltac js_eval :=
  cbv [flipCard checkMatch flipBack endGame resetFlipState renderBoard generateDeck
       hideWin showWin resetTimer stopTimer startTimer tickTimer maybeUpdateBestScore
       loadBestScores updateBestScoreDisplay updateStats prepareGame startGame
       pauseGame resumeGame board_onclick pauseBtn_onclick difficulty_onchange
       listener step boot
       clearInterval setTimeout setInterval localStorage_setItem localStorage_getItem
       shuffle Date_now classList element deref throw
       modify_env modify_dom modify_state gets world_of
       mbind mret JS_bind JS_ret with_state with_dom with_env
       negb orb andb data_index is_flipped is_matched best_get best_set easy_best hard_best
       difficulty deck moves matches firstCard secondCard lockBoard gameStarted paused
       timerInterval startTime elapsedMs bestScores card_elements board_cards
       board_disabled startBtn_disabled restartBtn_disabled pauseBtn_disabled
       pauseBtn_text win_shown movesDisplay matchesDisplay timeDisplay bestScoreDisplay
       clock clock_reads entropy drawn localStorage intervals timeouts next_handle
       endGame_calls set_difficulty set_deck set_moves set_matches set_firstCard
       set_secondCard set_lockBoard set_gameStarted set_paused set_timerInterval
       set_startTime set_elapsedMs set_bestScores set_card_elements set_board_cards
       set_board_disabled set_startBtn_disabled set_restartBtn_disabled
       set_pauseBtn_disabled set_pauseBtn_text set_win_shown set_movesDisplay
       set_matchesDisplay set_timeDisplay set_bestScoreDisplay set_clock
       set_clock_reads set_entropy set_drawn set_localStorage set_intervals
       set_timeouts set_next_handle set_endGame_calls state dom env].

(** Follows the script through one of its tests. *)
Ltac js_case :=
  match goal with
  | |- context [match ?x with _ => _ end] => is_var x; destruct x
  | |- context [match ?l !! ?c with _ => _ end] => destruct (l !! c) eqn:?
  | |- context [bool_decide ?P] => destruct (bool_decide_reflect P)
  | |- context [if nat_lt ?a ?b then _ else _] => destruct (nat_lt a b) eqn:?
  end.

Ltac js_cases := js_eval; repeat (js_case; js_eval).

Ltac open_world w :=
  let s := fresh "s" in let d := fresh "d" in let e := fresh "e" in
  destruct w as [s d e]; destruct s, d, e.

(** *** The deck *)

Lemma GAME_DATA_names : NoDup (name <$> GAME_DATA).
Proof. apply (bool_decide_unpack _). by vm_compute. Qed.

Lemma occurrences_app nm l1 l2 :
  occurrences nm (l1 ++ l2) = occurrences nm l1 + occurrences nm l2.
Proof. unfold occurrences. by rewrite filter_app, length_app. Qed.

Lemma occurrences_perm nm l1 l2 : l1 ≡ₚ l2 → occurrences nm l1 = occurrences nm l2.
Proof. intros H. unfold occurrences. by rewrite H. Qed.

Lemma occurrences_absent nm l : nm ∉ name <$> l → occurrences nm l = 0.
Proof.
  unfold occurrences. induction l as [|x l IH]; [done|].
  rewrite fmap_cons, not_elem_of_cons. intros [Hx Hl].
  rewrite filter_cons_False by congruence. auto.
Qed.

Lemma occurrences_once nm l : NoDup (name <$> l) → nm ∈ name <$> l → occurrences nm l = 1.
Proof.
  induction l as [|x l IH]; [by intros _ ?%elem_of_nil|].
  rewrite fmap_cons, NoDup_cons. intros [Hx Hl] Hin.
  unfold occurrences. destruct (decide (name x = nm)) as [<-|Hne].
  - rewrite filter_cons_True by done. simpl. f_equal. by apply occurrences_absent.
  - rewrite filter_cons_False by done. apply IH; [done|].
    apply elem_of_cons in Hin as [?|?]; congruence.
Qed.

Lemma chosen_in_facts w :
  length (chosen_in w) = pairs (DIFFICULTIES (difficulty (state w)))
  ∧ NoDup (name <$> chosen_in w)
  ∧ chosen_in w ⊆ GAME_DATA.
Proof.
  unfold chosen_in.
  set (pool := Shuffle.shuffle _ _ _).
  assert (Hp : pool ≡ₚ GAME_DATA) by apply ShuffleFacts.shuffle_perm.
  split_and!.
  - rewrite length_take_le; [done|]. rewrite Hp. destruct (difficulty (state w)); simpl; lia.
  - rewrite fmap_take. assert (NoDup (name <$> pool)) by (rewrite Hp; apply GAME_DATA_names).
    eauto using sublist_NoDup, sublist_take.
  - rewrite <-Hp. apply subseteq_take.
Qed.

(** C2. For either difficulty [generateDeck] returns a deck of [2 * pairs]
    cards, made of the chosen symbols, which are [pairs] different symbols of
    [GAME_DATA]; the symbol of every card of the deck, and every chosen
    symbol, is on exactly two cards, and no other symbol is on any. *)
Theorem generateDeck_two_of_each (w : World) :
  ∃ cards w',
    generateDeck w = Return cards w'
    ∧ length cards = 2 * pairs (DIFFICULTIES (difficulty (state w)))
    ∧ cards ≡ₚ chosen_in w ++ chosen_in w
    ∧ length (chosen_in w) = pairs (DIFFICULTIES (difficulty (state w)))
    ∧ NoDup (name <$> chosen_in w)
    ∧ Forall (λ c, occurrences (name c) cards = 2) cards
    ∧ Forall (λ c, occurrences (name c) cards = 2) (chosen_in w)
    ∧ ∀ nm, occurrences nm cards = if bool_decide (nm ∈ name <$> chosen_in w) then 2 else 0.
Proof.
  destruct (chosen_in_facts w) as (Hlen & Hnd & _).
  assert (∃ k w', generateDeck w
            = Return (Shuffle.shuffle (entropy (env w)) k (chosen_in w ++ chosen_in w)) w')
    as (k & w' & ->).
  { unfold chosen_in. open_world w. js_eval. by eexists _, _. }
  eexists _, _. split; [reflexivity|].
  set (cards := Shuffle.shuffle _ _ _).
  assert (Hp : cards ≡ₚ chosen_in w ++ chosen_in w) by apply ShuffleFacts.shuffle_perm.
  assert (Hocc : ∀ nm, occurrences nm cards
                       = if bool_decide (nm ∈ name <$> chosen_in w) then 2 else 0).
  { intros nm. rewrite (occurrences_perm _ _ _ Hp), occurrences_app.
    case_bool_decide.
    - by rewrite occurrences_once.
    - by rewrite occurrences_absent. }
  split_and!; try done.
  - rewrite Hp, length_app. lia.
  - apply Forall_forall. intros c Hc. rewrite Hocc, bool_decide_eq_true_2; [done|].
    rewrite Hp in Hc. apply list_elem_of_fmap_2.
    apply elem_of_app in Hc. tauto.
  - apply Forall_forall. intros c Hc. rewrite Hocc, bool_decide_eq_true_2; [done|].
    by apply list_elem_of_fmap_2.
Qed.



(** *** Selecting a card *)

(** C3. [flipCard] returns at once, leaving the whole world as it was (no
    card flipped, no move counted, nothing selected), when the game is not
    started, or is paused, or the board is locked, or the card clicked is
    already matched or already face-up. *)
Theorem flipCard_noop (w : World) (card : ref) :
  gameStarted (state w) = false
  ∨ paused (state w) = true
  ∨ lockBoard (state w) = true
  ∨ matched w card = Some true
  ∨ flipped w card = Some true →
  flipCard card w = Return () w.
Proof.
  unfold matched, flipped. open_world w. js_cases; try done.
  all: intros [?|[?|[?|[?|?]]]]; simplify_eq.
Qed.

Lemma flipCard_noop_witness :
  (gameStarted (state Sample.ready) = false
   ∨ paused (state Sample.ready) = true
   ∨ lockBoard (state Sample.ready) = true
   ∨ matched Sample.ready 0 = Some true
   ∨ flipped Sample.ready 0 = Some true)
  ∧ flipCard 0 Sample.ready = Return () Sample.ready.
Proof.
  assert (H : gameStarted (state Sample.ready) = false) by (vm_compute; reflexivity).
  split; [by left|]. apply (flipCard_noop Sample.ready 0). by left.
Defined.

(** *** Best scores *)

Lemma nat_lt_of_nat (m b : nat) : nat_lt m (of_nat b) = bool_decide (m < b).
Proof.
  unfold nat_lt, of_nat, Qle_bool, inject_Z. simpl.
  rewrite !Z.mul_1_r. case_bool_decide.
  - apply negb_true_iff, Z.leb_gt. lia.
  - apply negb_false_iff, Z.leb_le. lia.
Qed.

(** C5. [maybeUpdateBestScore], which [endGame] ends with and which alone
    decides the best scores and the storage that [endGame] leaves, compares
    [moves] with the best score of the current difficulty.  When there is none, or [moves] is below it, the
    score in [state.bestScores] becomes [moves], the other difficulty keeping
    its score, and the decimal string of [moves] is stored under the key of
    the difficulty; otherwise the world is left exactly as it was.  On a best
    score that is a whole number the comparison is the strict order of
    numbers. *)
Theorem maybeUpdateBestScore_strictly_better (w : World) :
  let mode := difficulty (state w) in
  let m := moves (state w) in
  ∃ w', maybeUpdateBestScore w = Return () w'
  ∧ bestScores (state (world_of (endGame w))) = bestScores (state w')
  ∧ localStorage (env (world_of (endGame w))) = localStorage (env w')
  ∧ (∀ b : nat, nat_lt m (of_nat b) = bool_decide (m < b))
  ∧ match best_get mode (bestScores (state w)) with
    | Some best =>
        if nat_lt m best then
          best_get mode (bestScores (state w')) = Some (of_nat m)
          ∧ bestScores (state w') = best_set mode (Some (of_nat m)) (bestScores (state w))
          ∧ localStorage (env w')
            = <["mgBestMoves_" +:+ Difficulty_key mode := String_ m]> (localStorage (env w))
        else w' = w
    | None =>
        best_get mode (bestScores (state w')) = Some (of_nat m)
        ∧ bestScores (state w') = best_set mode (Some (of_nat m)) (bestScores (state w))
        ∧ localStorage (env w')
          = <["mgBestMoves_" +:+ Difficulty_key mode := String_ m]> (localStorage (env w))
    end.
Proof.
  open_world w. js_cases.
  all: eexists; split; [reflexivity|]; js_eval.
  all: split; [done|]; split; [done|]; split; [intros; apply nat_lt_of_nat|].
  all: rewrite ?Heqb; done.
Qed.

(** *** The timer *)

Lemma stopTimer_stopped w : timerInterval (state w) = None → stopTimer w = Return () w.
Proof. open_world w. js_cases; done. Qed.

Lemma stopTimer_stops w : timerInterval (state (world_of (stopTimer w))) = None.
Proof. open_world w. js_cases; done. Qed.

Lemma filter_ne_singleton (h : positive) : filter (λ i, i ≠ h) [h] = [].
Proof. by rewrite filter_cons_False by (intros Hne; by apply Hne). Qed.

(** *** What holds of every world the page can reach *)

Lemma reachable_run evs : ∀ w, reachable w → reachable (run evs w).
Proof.
  induction evs as [|ev evs IH]; intros w Hw; [done|].
  apply IH. by constructor.
Qed.

Lemma timer_ok_step ev w : timer_ok w → timer_ok (step ev w).
Proof.
  unfold timer_ok. open_world w.
  destruct ev as [[c|]| | | | v | h |]; js_cases.
  all: try (intros (? & ? & ?); simplify_eq).
  all: try (intros (? & [?|?]); simplify_eq).
  all: rewrite ?filter_ne_singleton.
  all: by split_and!; auto.
Qed.

Ltac open_loaded_page w :=
  let s := fresh "s" in let d := fresh "d" in let e := fresh "e" in
  let Hs := fresh in let Hi := fresh in let Ht := fresh in
  intros (Hs & Hi & Ht); destruct w as [s d e]; cbn [state env] in Hs, Hi, Ht;
  rewrite Hs; destruct d, e; cbn [intervals timeouts] in Hi, Ht; subst;
  unfold initial_state.

Lemma timer_ok_boot w : loaded_page w → timer_ok (world_of (boot w)).
Proof. open_loaded_page w. unfold timer_ok. js_eval. auto. Qed.

Lemma reachable_timer_ok w : reachable w → timer_ok w.
Proof. induction 1; auto using timer_ok_boot, timer_ok_step. Qed.


Lemma index_of_alter f c els c' :
  (∀ e, data_index (f e) = data_index e) →
  index_of (alter f c els) c' = index_of els c'.
Proof.
  intros Hf. unfold index_of. destruct (decide (c = c')) as [->|Hne].
  - rewrite list_lookup_alter_eq. destruct (els !! c') as [x|]; [cbn; by rewrite Hf|done].
  - by rewrite list_lookup_alter_ne.
Qed.

Lemma index_of_rendered els n c :
  c ∈ seq (length els) n →
  ∃ i, index_of (els ++ (new_card <$> seq 0 n)) c = Some i ∧ i < n.
Proof.
  intros [Hc1 Hc2]%elem_of_seq. exists (c - length els). split; [|lia].
  unfold index_of. rewrite lookup_app_r by lia.
  rewrite list_lookup_fmap, (lookup_seq_lt 0 n) by lia. done.
Qed.

Lemma board_ok_step ev w : board_ok w → board_ok (step ev w).
Proof.
  unfold board_ok, selectable. open_world w.
  destruct ev as [[c|]| | | | v | h |]; js_cases.
  all: intros (Hb & H1 & H2); split_and!; intros; simplify_eq.
  all: rewrite ?index_of_alter by done; eauto using index_of_rendered.
Qed.

Lemma board_ok_boot w : loaded_page w → board_ok (world_of (boot w)).
Proof.
  open_loaded_page w. unfold board_ok, selectable. js_eval.
  split_and!; try done; eauto using index_of_rendered.
Qed.

Lemma reachable_board_ok w : reachable w → board_ok w.
Proof. induction 1; auto using board_ok_boot, board_ok_step. Qed.


(** *** Pause and resume *)

Lemma pauseGame_guard w :
  gameStarted (state w) = false ∨ paused (state w) = true → pauseGame w = Return () w.
Proof. open_world w. js_cases; try done. all: by intros [?|?]. Qed.

Lemma resumeGame_guard w :
  gameStarted (state w) = false ∨ paused (state w) = false → resumeGame w = Return () w.
Proof. open_world w. js_cases; try done. all: by intros [?|?]. Qed.

(** C8. [pauseGame] does nothing when the game is not started or is already
    paused, [resumeGame] nothing when it is not started or not paused (in any
    world, by the two lemmas above).  Otherwise, in a world the page can
    reach: pausing sets [paused], adds the
    time since [startTime] to [elapsedMs], clears the interval timer (none is
    left running) and disables the board; resuming clears [paused], enables
    the board, keeps [elapsedMs], takes the current time as the new
    [startTime] and starts an interval timer again, so that the next tick
    shows the accumulated time plus the time since the resumption. *)
Theorem pause_resume (w : World) :
  reachable w →
  ∃ wp wr,
    pauseGame w = Return () wp ∧ resumeGame w = Return () wr
    ∧ (if negb (gameStarted (state w)) || paused (state w) then wp = w
       else
         paused (state wp) = true
         ∧ elapsedMs (state wp) = (elapsedMs (state w) + (now w - startTime (state w)))%Z
         ∧ is_Some (timerInterval (state w))
         ∧ timerInterval (state wp) = None
         ∧ intervals (env wp) = []
         ∧ board_disabled (dom wp) = true)
    ∧ (if negb (gameStarted (state w)) || negb (paused (state w)) then wr = w
       else
         paused (state wr) = false
         ∧ board_disabled (dom wr) = false
         ∧ elapsedMs (state wr) = elapsedMs (state w)
         ∧ startTime (state wr) = now w
         ∧ timerInterval (state wr) = Some (next_handle (env w))
         ∧ intervals (env wr) = [next_handle (env w)]
         ∧ timeDisplay (dom (world_of (tickTimer wr)))
           = (λ _, formatTime ((elapsedMs (state w) + (now wr - now w)) `div` 1000)%Z)
               <$> timeDisplay (dom w)).
Proof.
  intros Hw%reachable_timer_ok. revert Hw.
  unfold timer_ok, now. open_world w. js_cases.
  all: try (intros (? & ? & ?); simplify_eq).
  all: try (intros (? & [?|?]); simplify_eq).
  all: eexists _, _; (split; [reflexivity|]); (split; [reflexivity|]); js_eval.
  all: rewrite ?filter_ne_singleton; split_and?; try done; eauto.
  all: by destruct timeDisplay0.
Qed.

Lemma pause_resume_witness :
  reachable Sample.playing
  ∧ ∃ wp, pauseGame Sample.playing = Return () wp
          ∧ paused (state wp) = true
          ∧ elapsedMs (state wp) = 2000%Z.
Proof.
  assert (Hr : reachable Sample.playing).
  { apply (reachable_run [StartClick]), reachable_boot. by vm_compute. }
  split; [exact Hr|].
  destruct (pause_resume Sample.playing Hr) as (wp & wr & Hp & _ & H & _).
  exists wp. split; [exact Hp|].
  change (negb (gameStarted (state Sample.playing)) || paused (state Sample.playing))
    with false in H.
  destruct H as (H1 & H2 & _). split; [exact H1|]. rewrite H2. by vm_compute.
Defined.

(** C10. [stopTimer] with no timer running returns at once and changes
    nothing, so stopping twice is stopping once.  In a world the page can
    reach no timer runs while the game is paused: there [stopTimer] changes
    nothing, and [endGame], which calls it, leaves [elapsedMs] as it was. *)
Theorem stopTimer_idempotent (w : World) :
  stopTimer (world_of (stopTimer w)) = Return () (world_of (stopTimer w))
  ∧ (timerInterval (state w) = None → stopTimer w = Return () w)
  ∧ (reachable w → paused (state w) = true →
       timerInterval (state w) = None
       ∧ stopTimer w = Return () w
       ∧ elapsedMs (state (world_of (endGame w))) = elapsedMs (state w)).
Proof.
  split; [apply stopTimer_stopped, stopTimer_stops|].
  split; [apply stopTimer_stopped|].
  intros Hw%reachable_timer_ok. revert Hw.
  unfold timer_ok. open_world w. js_cases.
  all: try (intros (? & ? & ?) ?; simplify_eq).
  all: try (intros (? & [?|?]) ?; simplify_eq).
  all: done.
Qed.

Lemma stopTimer_idempotent_witness :
  reachable Sample.on_hold
  ∧ paused (state Sample.on_hold) = true
  ∧ stopTimer Sample.on_hold = Return () Sample.on_hold
  ∧ elapsedMs (state (world_of (endGame Sample.on_hold))) = elapsedMs (state Sample.on_hold).
Proof.
  assert (Hr : reachable Sample.on_hold).
  { apply (reachable_run [PauseClick]), (reachable_run [StartClick]), reachable_boot.
    by vm_compute. }
  assert (Hp : paused (state Sample.on_hold) = true) by (vm_compute; reflexivity).
  split; [exact Hr|]. split; [exact Hp|].
  apply (proj2 (proj2 (stopTimer_idempotent Sample.on_hold)) Hr Hp).
Defined.


(** *** Resolving a pair *)









(** In a world the page can reach, a click that selects a second card runs
    [checkMatch] in a world where the theorem above applies. *)
Lemma second_click_resolves (w : World) (card c1 : ref) :
  reachable w →
  card ∈ board_cards (dom w) →
  gameStarted (state w) = true → paused (state w) = false → lockBoard (state w) = false →
  matched w card = Some false → flipped w card = Some false →
  firstCard (state w) = Some c1 →
  ∃ w1 e1 e2 x1 x2,
    flipCard card w = checkMatch w1
    ∧ moves (state w1) = S (moves (state w))
    ∧ flipped w1 card = Some true
    ∧ firstCard (state w1) = Some c1 ∧ secondCard (state w1) = Some card
    ∧ card_elements (dom w1) !! c1 = Some e1 ∧ card_elements (dom w1) !! card = Some e2
    ∧ deck (state w1) !! data_index e1 = Some x1
    ∧ deck (state w1) !! data_index e2 = Some x2.
Proof.
  intros (Hb & Hf & _)%reachable_board_ok Hcard Hg Hp Hl Hm Hfl H1.
  assert (Hc1 : c1 ∈ board_cards (dom w)) by auto.
  destruct (Hb _ Hcard) as (i2 & Hi2 & Hlt2). destruct (Hb _ Hc1) as (i1 & Hi1 & Hlt1).
  apply lookup_lt_is_Some_2 in Hlt1 as [x1 Hx1], Hlt2 as [x2 Hx2].
  unfold index_of, matched, flipped in *.
  destruct (card_elements (dom w) !! card) as [[n2 f2 m2]|] eqn:He2; simplify_eq/=.
  destruct (card_elements (dom w) !! c1) as [[n1 f1 m1]|] eqn:He1; simplify_eq/=.
  exists (world_of ((classList add_is_flipped card;;
                     modify_state (set_secondCard (Some card));;
                     modify_state (λ s, set_moves (S (moves s)) s);;
                     updateStats) w)).
  exists (if decide (card = c1) then add_is_flipped {| data_index := i1; is_flipped := f1; is_matched := m1 |}
          else {| data_index := i1; is_flipped := f1; is_matched := m1 |}).
  exists (add_is_flipped {| data_index := i2; is_flipped := false; is_matched := false |}), x1, x2.
  revert He1 He2 Hx1 Hx2. open_world w. js_eval. simplify_eq/=.
  intros He1 He2 Hx1 Hx2. rewrite He2. js_eval.
  split_and!; try done; rewrite ?list_lookup_alter, ?He1, ?He2; repeat case_decide;
    by simplify_eq.
Qed.

(** *** The end of a game *)



Lemma run_snoc evs ev w : run (evs ++ [ev]) w = step ev (run evs w).
Proof. unfold run. by rewrite foldl_snoc. Qed.

Lemma run_app evs1 evs2 w : run (evs1 ++ evs2) w = run evs2 (run evs1 w).
Proof. unfold run. by rewrite foldl_app. Qed.






(** *** Runs of the sample page *)

(** Nothing stored, six pairs in six moves: the game is over, [endGame] has
    run once, the win message shows, and the best score, in [state] and in
    the storage, is 6. *)
Example perfect_game :
  let w := run Sample.six_moves Sample.playing in
  gameStarted (state w) = false
  ∧ moves (state w) = 6 ∧ matches (state w) = 6
  ∧ endGame_calls (env w) = 1
  ∧ win_shown (dom w) = true
  ∧ best_get easy (bestScores (state w)) = Some (of_nat 6)
  ∧ localStorage (env w) !! "mgBestMoves_easy" = Some "6".
Proof. by vm_compute. Qed.

(** A mismatch: one move, no match, the board locked; when the timeout fires
    both cards are face-down again and the board is unlocked. *)
Example mismatch_then_timeout :
  let w := Sample.mismatched in
  let w' := step TimeoutFires w in
  moves (state w) = 1 ∧ matches (state w) = 0 ∧ lockBoard (state w) = true
  ∧ flipped w 12 = Some true ∧ flipped w 13 = Some true
  ∧ timeouts (env w) = [(2%positive, 900)]
  ∧ flipped w' 12 = Some false ∧ flipped w' 13 = Some false
  ∧ firstCard (state w') = None ∧ secondCard (state w') = None
  ∧ lockBoard (state w') = false ∧ timeouts (env w') = [].
Proof. by vm_compute. Qed.

(** What [String(moves)] stores, [Number] reads back. *)
Example stored_score_round_trip :
  stored_score (Some (String_ 6)) = Some (of_nat 6)
  ∧ stored_score (Some (String_ 48)) = Some (of_nat 48)
  ∧ stored_score None = None.
Proof. by vm_compute. Qed.

(** No number of moves is below NaN: once the best score of a difficulty
    is NaN, no game of that difficulty changes it. *)
Lemma NaN_best_stays w :
  best_get (difficulty (state w)) (bestScores (state w)) = Some NaN →
  maybeUpdateBestScore w = Return () w.
Proof. open_world w. js_cases; intros; by simplify_eq/=. Qed.

(** C6, on the code.  The stored easy score is the string abc.
    [loadBestScores] does not fall back to no score: the best score becomes
    NaN, below which no number of moves is; [maybeUpdateBestScore] then
    leaves the world as it is for every number of moves, and after the six
    pairs are found in six moves the best score is still NaN and the storage
    still holds abc. *)
Lemma loadBestScores_keeps_NaN :
  let page := Sample.page easy (<["mgBestMoves_easy" := "abc"]> ∅) in
  let w := world_of (loadBestScores page) in
  stored_score (Some "abc") = Some NaN
  ∧ best_get easy (bestScores (state w)) = Some NaN
  ∧ best_get hard (bestScores (state w)) = None
  ∧ (∀ m, maybeUpdateBestScore (with_state (set_moves m) w)
          = Return () (with_state (set_moves m) w))
  ∧ let w' := run (StartClick :: Sample.six_moves) Sample.corrupt in
    endGame_calls (env w') = 1 ∧ moves (state w') = 6
    ∧ best_get easy (bestScores (state w')) = Some NaN
    ∧ localStorage (env w') !! "mgBestMoves_easy" = Some "abc".
Proof.
  split_and!; by vm_compute.
Qed.

(** A reset clears the slots and cancels no timeout; a callback that runs
    with the first slot cleared throws.  So whenever a timeout is pending at
    a reset, the first timeout to fire after it ends in a TypeError. *)
Lemma reset_keeps_timeouts ev w :
  resets ev = true →
  firstCard (state (step ev w)) = None
  ∧ secondCard (state (step ev w)) = None
  ∧ timeouts (env (step ev w)) = timeouts (env w).
Proof.
  open_world w. destruct ev as [[c|]| | | | v | h |]; try done; intros _.
  all: js_cases; done.
Qed.

Lemma flipBack_null w : firstCard (state w) = None → flipBack w = Throw w.
Proof. open_world w. js_eval. by intros ->. Qed.

Lemma timeout_after_reset_throws ev w :
  resets ev = true → timeouts (env w) ≠ [] →
  completes (listener TimeoutFires (step ev w)) = false.
Proof.
  intros Hev Ht. destruct (reset_keeps_timeouts ev w Hev) as (Hf & _ & Ht').
  rewrite <-Ht' in Ht. revert Hf Ht. generalize (step ev w). clear.
  intros w. open_world w. js_eval. intros -> Ht. by destruct timeouts0.
Qed.

(** C9, on the code.  Two cards that do not match are up and their timeout
    is pending when the restart button is clicked.  The timeout is still
    pending in the new game, and the slots are cleared: when it fires the
    callback throws on [state.firstCard], which is [null].  If a first card
    of the new game (card 24) has been selected by then, the callback turns
    that card face-down, then throws on [state.secondCard]: the card stays
    in the first slot, face-down, and a second click on it matches it with
    itself. *)
Lemma flipBack_after_restart :
  let w := run [RestartClick] Sample.mismatched in
  timeouts (env w) = [(2%positive, 900)]
  ∧ firstCard (state w) = None
  ∧ completes (listener TimeoutFires w) = false
  ∧ flipBack w = Throw w
  ∧ let w1 := run [BoardClick (Some 24)] w in
    let w2 := step TimeoutFires w1 in
    let w3 := step (BoardClick (Some 24)) w2 in
    board_cards (dom w1) !! 0 = Some 24
    ∧ firstCard (state w1) = Some 24 ∧ flipped w1 24 = Some true
    ∧ completes (listener TimeoutFires w1) = false
    ∧ firstCard (state w2) = Some 24 ∧ flipped w2 24 = Some false
    ∧ moves (state w3) = 1 ∧ matches (state w3) = 1 ∧ matched w3 24 = Some true.
Proof.
  cbv zeta. split_and!; by vm_compute.
Qed.

End GameFacts.

(** ** Further properties of the script *)

Module ExtraFacts.
Import JsNum Game Props Extra GameFacts.

(** *** The clock display *)

Lemma padStart_two_digits :
  Forall (λ n, padStart 2 "0" (String_Z (Z.of_nat n)) = two_digits n) (seq 0 100).
Proof. apply (bool_decide_unpack _). by vm_compute. Qed.

(** X1. For a time of less than a hundred minutes, [formatTime] gives the
    two digits of the minutes, a colon and the two digits of the seconds. *)
Theorem formatTime_mm_ss (s : Z) :
  (0 ≤ s < 6000)%Z →
  formatTime s
  = two_digits (Z.to_nat (s / 60)) +:+ ":" +:+ two_digits (Z.to_nat (s mod 60)).
Proof.
  intros Hs. unfold formatTime.
  assert (Hpad : ∀ z, (0 ≤ z < 100)%Z →
            padStart 2 "0" (String_Z z) = two_digits (Z.to_nat z)).
  { intros z Hz. rewrite <-(Z2Nat.id z) at 1 by lia.
    apply (proj1 (Forall_forall _ _) padStart_two_digits).
    apply elem_of_seq. lia. }
  rewrite Z.rem_mod_nonneg by lia.
  rewrite !Hpad; [done| |].
  - pose proof (Z.mod_pos_bound s 60). lia.
  - split; [apply Z.div_pos; lia|]. apply Z.div_lt_upper_bound; lia.
Qed.

Lemma formatTime_mm_ss_witness :
  (0 ≤ 754 < 6000)%Z ∧ formatTime 754 = "12:34".
Proof.
  split; [lia|]. rewrite (formatTime_mm_ss 754) by lia. reflexivity.
Defined.

(** *** The shuffle *)

Section Arrays.
Context {A : Type}.
Implicit Types arr : list A.

Lemma swap_lookup_other i j p arr : p ≠ i → p ≠ j → Shuffle.swap i j arr !! p = arr !! p.
Proof.
  intros Hi Hj. unfold Shuffle.swap.
  destruct (arr !! i), (arr !! j); try done.
  by rewrite !list_lookup_insert_ne.
Qed.

Lemma shuffle_from_above entropy i : ∀ k arr p,
  i < p → Shuffle.shuffle_from entropy k i arr !! p = arr !! p.
Proof.
  induction i as [|i IH]; intros k arr p Hp; [done|].
  cbn [Shuffle.shuffle_from]. rewrite IH by lia.
  apply swap_lookup_other; [lia|].
  pose proof (ShuffleFacts.random_index_lt entropy k (S i + 1) ltac:(lia)). lia.
Qed.

(** X3. The last position of a shuffled array holds the element the first
    draw picked: the element at the first random index, taken among all the
    positions of the array. *)
Theorem shuffle_last entropy k arr :
  arr ≠ [] →
  Shuffle.shuffle entropy k arr !! (length arr - 1)
  = arr !! Shuffle.random_index entropy k (length arr).
Proof.
  intros Hne. unfold Shuffle.shuffle.
  destruct (length arr) as [|n] eqn:Hlen; [by destruct arr|].
  replace (S n - 1) with n by lia.
  destruct n as [|i].
  - cbn [Shuffle.shuffle_from]. unfold Shuffle.random_index. by rewrite Nat.mod_1_r.
  - cbn [Shuffle.shuffle_from]. rewrite shuffle_from_above by lia.
    replace (S i + 1) with (S (S i)) by lia.
    apply ShuffleFacts.swap_in_range; [lia|].
    pose proof (ShuffleFacts.random_index_lt entropy k (S (S i)) ltac:(lia)). lia.
Qed.

End Arrays.

(** X2. An array of at most one element is left as it is by [shuffle], and
    no random number is drawn: the world is unchanged. *)
Theorem shuffle_short {A} (arr : list A) (w : World) :
  length arr ≤ 1 → shuffle arr w = Return arr w.
Proof.
  intros Hlen. open_world w. js_eval.
  destruct arr as [|x [|y arr]]; simpl in *; [| |lia].
  all: by rewrite Nat.add_0_r.
Qed.

Lemma shuffle_short_witness :
  length [7] ≤ 1 ∧ shuffle [7] Sample.ready = Return [7] Sample.ready.
Proof.
  assert (H : length [7] ≤ 1) by (simpl; lia).
  split; [exact H|]. exact (shuffle_short [7] Sample.ready H).
Defined.

Lemma shuffle_last_witness :
  [1; 2; 3] ≠ [] ∧ Shuffle.shuffle (λ n, 4) 0 [1; 2; 3] !! 2 = Some 2.
Proof.
  assert (H : [1; 2; 3] ≠ []) by done.
  split; [exact H|]. exact (shuffle_last (λ n, 4) 0 [1; 2; 3] H).
Defined.

(** *** What is stored is read back *)

Lemma digit_not_space c : is_Some (digit_value 10 c) → is_white_space c = false.
Proof. destruct c as [[] [] [] [] [] [] [] []]; vm_compute; by intros [? ?]. Qed.

Lemma trim_start_digits s : digits_only s = true → trim_start s = s.
Proof.
  destruct s as [|c s]; [done|]. simpl.
  destruct (digit_value 10 c) eqn:Hc; [|done]. intros _.
  by rewrite digit_not_space by (by rewrite Hc).
Qed.

Lemma digits_only_rev_app s : ∀ t,
  digits_only s = true → digits_only t = true → digits_only (String.rev_app s t) = true.
Proof.
  induction s as [|c s IH]; intros t Hs Ht; [done|]. simpl in *.
  destruct (digit_value 10 c) eqn:Hc; [|done].
  apply IH; [done|]. simpl. by rewrite Hc.
Qed.

Lemma string_app_empty s : s +:+ "" = s.
Proof.
  induction s as [|c s IH]; [done|].
  change (String c (s +:+ "") = String c s). by rewrite IH.
Qed.

Lemma rev_app_rev_app s : ∀ a b,
  String.rev_app (String.rev_app s a) b = String.rev_app a (s +:+ b).
Proof.
  induction s as [|c s IH]; intros a b; [done|].
  cbn [String.rev_app]. by rewrite IH.
Qed.

Lemma trim_digits s : digits_only s = true → trim s = s.
Proof.
  intros Hs. unfold trim, String.rev.
  rewrite (trim_start_digits s Hs).
  rewrite trim_start_digits by (by apply digits_only_rev_app).
  rewrite rev_app_rev_app. simpl. apply string_app_empty.
Qed.

Lemma digit_value_pretty (d : nat) :
  d < 10 → digit_value 10 (pretty_N_char (N.of_nat d)) = Some (Z.of_nat d).
Proof. intros Hd. do 10 (destruct d as [|d]; [by vm_compute|]). lia. Qed.

(** Reading the digits [pretty_N_go] writes in front of [s]. *)
Lemma digits_pretty_N_go (x : N) :
  ∃ scale : Z, ∀ s count acc,
    ∃ count', ((0 < x)%N → 0 < count')
      ∧ digits 10 count acc (pretty_N_go x s) = digits 10 count' (acc * scale + Z.of_N x) s
      ∧ digits_only (pretty_N_go x s) = digits_only s.
Proof.
  induction (N.lt_wf_0 x) as [x _ IH].
  destruct (decide (0 < x)%N) as [Hx|Hx].
  - destruct (IH (x `div` 10)%N) as [scale Hdiv]; [by apply N.div_lt|].
    exists (scale * 10)%Z. intros s count acc.
    rewrite pretty_N_go_step by done.
    destruct (Hdiv (String (pretty_N_char (x `mod` 10)) s) count acc)
      as (count' & _ & Hd & Ho).
    assert (Hchar : digit_value 10 (pretty_N_char (x `mod` 10))
                    = Some (Z.of_N (x `mod` 10))).
    { pose proof (N.mod_lt x 10 ltac:(done)).
      rewrite <-(N2Nat.id (x `mod` 10)), digit_value_pretty by lia.
      by rewrite nat_N_Z. }
    exists (S count'). split; [lia|]. rewrite Hd, Ho.
    cbn [digits digits_only]. rewrite Hchar. split; [|done].
    f_equal. rewrite (N.div_mod x 10) at 3 by done.
    rewrite N2Z.inj_add, N2Z.inj_mul. simpl Z.of_N. lia.
  - assert (x = 0%N) as -> by lia. exists 1%Z. intros s count acc.
    rewrite pretty_N_go_0. exists count. split; [lia|]. split; [|done].
    f_equal. simpl. lia.
Qed.

Lemma String_digits (n : nat) :
  digits_only (String_ n) = true
  ∧ ∃ count, 0 < count ∧ digits 10 0 0 (String_ n) = (count, Z.of_nat n, "").
Proof.
  unfold String_, pretty, pretty_nat, pretty, pretty_N.
  case_decide as Hn.
  - split; [done|]. exists 1. split; [lia|].
    replace n with 0 by lia. done.
  - destruct (digits_pretty_N_go (N.of_nat n)) as [scale H].
    destruct (H "" 0 0%Z) as (count & Hc & Hd & Ho).
    split; [by rewrite Ho|]. exists count. split; [lia|].
    rewrite Hd. simpl. by rewrite nat_N_Z.
Qed.


Lemma digit_is_decimal c :
  is_Some (digit_value 10 c) →
  c ∈ ["0"; "1"; "2"; "3"; "4"; "5"; "6"; "7"; "8"; "9"]%char.
Proof.
  destruct c as [[] [] [] [] [] [] [] []]; intros H.
  all: first [ apply (bool_decide_unpack _); by vm_compute
             | exfalso; vm_compute in H; by destruct H ].
Qed.

(** A string of digits is a decimal literal without sign, dot or exponent. *)
Lemma Number_digits s count v :
  digits_only s = true → 0 < count → digits 10 0 0 s = (count, v, "") →
  Number_ s = of_decimal v 0.
Proof.
  intros Hs Hcount Hd. unfold Number_. rewrite (trim_digits s Hs).
  assert (Hu : unsigned_decimal s = of_decimal v 0).
  { unfold unsigned_decimal. case_bool_decide as Hinf; [by subst|].
    rewrite Hd. cbn [exponent_part]. rewrite Nat.add_0_r.
    case_bool_decide; [lia|]. done. }
  destruct s as [|c1 s]; [by simplify_eq/=|].
  cbn [digits_only] in Hs.
  destruct (digit_value 10 c1) eqn:H1; [|done].
  assert (Hc1 : is_Some (digit_value 10 c1)) by (by rewrite H1).
  apply digit_is_decimal in Hc1.
  destruct s as [|c2 s].
  { repeat (apply elem_of_cons in Hc1 as [->|Hc1]; [exact Hu|]).
    by apply elem_of_nil in Hc1. }
  cbn [digits_only] in Hs.
  destruct (digit_value 10 c2) eqn:H2; [|done].
  assert (Hc2 : is_Some (digit_value 10 c2)) by (by rewrite H2).
  apply digit_is_decimal in Hc2.
  apply elem_of_cons in Hc1 as [->|Hc1].
  - repeat (apply elem_of_cons in Hc2 as [->|Hc2]; [exact Hu|]).
    by apply elem_of_nil in Hc2.
  - repeat (apply elem_of_cons in Hc1 as [->|Hc1]; [exact Hu|]).
    by apply elem_of_nil in Hc1.
Qed.

(** An integer below 2^53 is a double. *)
Lemma round_double_integer (p : positive) :
  (Z.pos p < 2 ^ 53)%Z → round_double p 1 = Finite (inject_Z (Z.pos p)).
Proof.
  intros Hp. unfold round_double.
  pose proof (Z.log2_spec (Z.pos p) ltac:(lia)) as [Hlo _].
  assert (Hlt : (Z.log2 (Z.pos p) < 53)%Z).
  { apply Z.log2_lt_pow2; [lia|exact Hp]. }
  pose proof (Z.log2_nonneg (Z.pos p)) as Hnn.
  change (Z.log2 1) with 0%Z. rewrite Z.sub_0_r.
  set (L := Z.log2 (Z.pos p)) in *. clearbody L.
  assert (∃ k, 0 ≤ k ≤ 52 ∧ L = 52 - k)%Z as (k & Hk & ->) by (exists (52 - L)%Z; lia).
  replace (52 - k - 52)%Z with (- k)%Z by lia.
  assert (Hscaled : (2 ^ 52 ≤ Z.pos p * 2 ^ k)%Z).
  { replace (2 ^ 52)%Z with (2 ^ (52 - k) * 2 ^ k)%Z
      by (rewrite <-Z.pow_add_r by lia; f_equal; lia).
    apply Z.mul_le_mono_nonneg_r; [apply Z.pow_nonneg|]; lia. }
  assert (H1024 : (2 ^ 53 < 2 ^ 1024)%Z) by (apply Z.pow_lt_mono_r; lia).
  match goal with
  | |- context [Z.max ?e (-1074)] => assert (E1 : e = (- k)%Z)
  end.
  { destruct (Z.leb_spec 0 (- k)).
    - assert (k = 0)%Z as -> by lia. change (2 ^ (- 0))%Z with 1%Z.
      rewrite Z.pow_0_r, Z.mul_1_r in Hscaled.
      by rewrite (proj2 (Z.leb_le _ _)) by lia.
    - rewrite Z.opp_involutive.
      by rewrite (proj2 (Z.leb_le _ _)) by lia. }
  rewrite !E1, Z.max_l by lia.
  destruct (Z.leb_spec 0 (- k)).
  - assert (k = 0)%Z as -> by lia. change (2 ^ (- 0))%Z with 1%Z.
    rewrite Z.div_1_r, Z.mod_1_r, !Z.mul_1_r.
    rewrite !Z.mul_0_r. change (1 <? 0)%Z with false. change (0 =? 1)%Z with false. cbv iota.
    by rewrite (proj2 (Z.leb_gt _ _)) by lia.
  - rewrite Z.opp_involutive, Z.div_1_r, Z.mod_1_r.
    rewrite !Z.mul_0_r. change (1 <? 0)%Z with false. change (0 =? 1)%Z with false. cbv iota.
    f_equal. rewrite <-(Qcanon.Qred_identity (inject_Z (Z.pos p))) by apply Z.gcd_1_r.
    apply Qred_complete. unfold Qeq, inject_Z. cbn [Qnum Qden].
    rewrite Z2Pos.id by (apply Z.pow_pos_nonneg; lia). lia.
Qed.

Lemma of_decimal_integer (n : nat) :
  (Z.of_nat n < 2 ^ 53)%Z → of_decimal (Z.of_nat n) 0 = of_nat n.
Proof.
  intros Hn. unfold of_decimal, of_nat.
  destruct (Z.of_nat n) as [|p|p] eqn:Hz; [done| |lia].
  cbn [Z.leb Z.compare]. change (Z.to_pos (10 ^ 0)) with 1%positive.
  rewrite Pos.mul_1_r. by apply round_double_integer.
Qed.

Lemma Number_String (n : nat) :
  (Z.of_nat n < 2 ^ 53)%Z → Number_ (String_ n) = of_nat n.
Proof.
  intros Hn. destruct (String_digits n) as (Hs & count & Hc & Hd).
  rewrite (Number_digits _ _ _ Hs Hc Hd). by apply of_decimal_integer.
Qed.

Lemma String_not_empty (n : nat) : String_ n ≠ "".
Proof.
  destruct (String_digits n) as (_ & count & Hc & Hd).
  intros Hn. rewrite Hn in Hd. simplify_eq/=. lia.
Qed.


(** *** Worlds the page can reach *)

Lemma ready_reachable : reachable Sample.ready.
Proof. apply reachable_boot. by vm_compute. Qed.

Lemma playing_reachable : reachable Sample.playing.
Proof. apply (reachable_run [StartClick]), ready_reachable. Qed.

Lemma mismatched_reachable : reachable Sample.mismatched.
Proof.
  apply (reachable_run [BoardClick (Some 13)]), (reachable_run [BoardClick (Some 12)]),
    playing_reachable.
Qed.

Lemma won_reachable : reachable (run Sample.six_moves Sample.playing).
Proof. apply reachable_run, playing_reachable. Qed.

(** *** The counters *)

Lemma pairs_positive d : 0 < pairs (DIFFICULTIES d).
Proof. destruct d; simpl; lia. Qed.

(** Uses the implications among the hypotheses whose premise holds. *)
Ltac use_premises :=
  repeat match goal with
  | H : ?a = ?a → _ |- _ => specialize (H eq_refl)
  | H : ?P → _, H' : ?P |- _ => specialize (H H')
  | H : _ ∧ _ |- _ => destruct H
  end.

Lemma counters_ok_step ev w : counters_ok w → counters_ok (step ev w).
Proof.
  unfold counters_ok. open_world w.
  destruct ev as [[c|]| | | | v | h |]; js_cases.
  all: intros (? & ? & Hs & Hw).
  all: try pose proof (pairs_positive difficulty0).
  all: try pose proof (pairs_positive v).
  all: split_and!; intros; use_premises; simplify_eq; try split; try lia; done.
Qed.

Lemma counters_ok_boot w : loaded_page w → counters_ok (world_of (boot w)).
Proof. open_loaded_page w. unfold counters_ok. js_eval. split_and!; try lia; done. Qed.

Lemma reachable_counters_ok w : reachable w → counters_ok w.
Proof. induction 1; auto using counters_ok_boot, counters_ok_step. Qed.


(** *** The controls and the displays *)

Lemma controls_ok_step ev w : controls_ok w → controls_ok (step ev w).
Proof.
  unfold controls_ok. open_world w.
  destruct ev as [[c|]| | | | v | h |]; js_cases.
  all: intros (? & ? & ? & ? & ?); split_and!; intros; use_premises; by simplify_eq.
Qed.

Lemma controls_ok_boot w : loaded_page w → controls_ok (world_of (boot w)).
Proof. open_loaded_page w. unfold controls_ok. js_eval. by split_and!. Qed.

Lemma reachable_controls_ok w : reachable w → controls_ok w.
Proof. induction 1; auto using controls_ok_boot, controls_ok_step. Qed.

Lemma displays_ok_step ev w : displays_ok w → displays_ok (step ev w).
Proof.
  unfold displays_ok. open_world w.
  destruct ev as [[c|]| | | | v | h |]; js_cases.
  all: intros (? & ? & ?).
  all: destruct movesDisplay0, matchesDisplay0, bestScoreDisplay0; simplify_eq/=.
  all: by split_and!.
Qed.

Lemma displays_ok_boot w : loaded_page w → displays_ok (world_of (boot w)).
Proof.
  open_loaded_page w. unfold displays_ok.
  destruct movesDisplay0, matchesDisplay0, bestScoreDisplay0; js_eval; by split_and!.
Qed.

Lemma reachable_displays_ok w : reachable w → displays_ok w.
Proof. induction 1; auto using displays_ok_boot, displays_ok_step. Qed.

(** *** The lock *)

Lemma lock_ok_step ev w : lock_ok w → lock_ok (step ev w).
Proof.
  unfold lock_ok. open_world w.
  destruct ev as [[c|]| | | | v | h |]; js_cases.
  all: intros Hl ?; simplify_eq; use_premises; split_and!; try done; eauto.
  all: by intros [? ?]%app_eq_nil.
Qed.

Lemma lock_ok_boot w : loaded_page w → lock_ok (world_of (boot w)).
Proof. open_loaded_page w. unfold lock_ok. js_eval. done. Qed.

Lemma reachable_lock_ok w : reachable w → lock_ok w.
Proof. induction 1; auto using lock_ok_boot, lock_ok_step. Qed.


(** *** The best scores and the storage *)

Lemma stored_score_String (n : nat) :
  (Z.of_nat n < 2 ^ 53)%Z → stored_score (Some (String_ n)) = Some (of_nat n).
Proof.
  intros Hn. unfold stored_score.
  rewrite bool_decide_eq_false_2 by apply String_not_empty.
  by rewrite Number_String.
Qed.

Lemma best_key_easy : best_key easy = "mgBestMoves_easy".
Proof. done. Qed.
Lemma best_key_hard : best_key hard = "mgBestMoves_hard".
Proof. done. Qed.

Lemma storage_ok_step ev w :
  (Z.of_nat (moves (state w)) + 1 < 2 ^ 53)%Z → storage_ok w → storage_ok (step ev w).
Proof.
  unfold storage_ok, stored. rewrite best_key_easy, best_key_hard. open_world w.
  destruct ev as [[c|]| | | | v | h |]; js_cases.
  all: intros Hm [? ?]; try done.
  all: change ("mgBestMoves_" +:+ Difficulty_key easy) with "mgBestMoves_easy".
  all: change ("mgBestMoves_" +:+ Difficulty_key hard) with "mgBestMoves_hard".
  all: rewrite ?lookup_insert_eq, ?lookup_insert_ne by done.
  all: rewrite ?stored_score_String by lia; done.
Qed.

Lemma storage_ok_boot w : loaded_page w → storage_ok (world_of (boot w)).
Proof.
  open_loaded_page w. unfold storage_ok, stored. rewrite best_key_easy, best_key_hard.
  js_eval. done.
Qed.

Lemma storage_ok_reload w :
  storage_ok w → bestScores (state (world_of (loadBestScores w))) = bestScores (state w).
Proof.
  unfold storage_ok, stored. rewrite best_key_easy, best_key_hard. open_world w.
  destruct bestScores0. js_eval. by intros [<- <-].
Qed.


(** X4. What [maybeUpdateBestScore] stores for a number of moves below 2^53
    is a string that is not empty and that [Number] reads back as that
    number, so [loadBestScores] finds the score it was. *)
Theorem saved_score_read_back (n : nat) :
  (Z.of_nat n < 2 ^ 53)%Z →
  String_ n ≠ ""
  ∧ Number_ (String_ n) = of_nat n
  ∧ stored_score (Some (String_ n)) = Some (of_nat n).
Proof.
  intros Hn. split_and!;
    [apply String_not_empty|by apply Number_String|by apply stored_score_String].
Qed.

Lemma saved_score_read_back_witness :
  (Z.of_nat 48 < 2 ^ 53)%Z ∧ stored_score (Some "48") = Some (of_nat 48).
Proof.
  assert (H : (Z.of_nat 48 < 2 ^ 53)%Z) by (by vm_compute).
  split; [exact H|]. exact (proj2 (proj2 (saved_score_read_back 48 H))).
Defined.

(** X5. When the best scores in [state] are the ones [loadBestScores] would
    read from the storage, they still are after any event (the number of
    moves staying below 2^53), and loading them again changes nothing: a
    reload of the page finds the best scores it had. *)
Theorem best_scores_persist (ev : Event) (w : World) :
  (Z.of_nat (moves (state w)) + 1 < 2 ^ 53)%Z →
  best_get easy (bestScores (state w)) = stored w easy →
  best_get hard (bestScores (state w)) = stored w hard →
  let w' := step ev w in
  best_get easy (bestScores (state w')) = stored w' easy
  ∧ best_get hard (bestScores (state w')) = stored w' hard
  ∧ bestScores (state (world_of (loadBestScores w'))) = bestScores (state w').
Proof.
  intros Hm He Hh w'.
  assert (Hok : storage_ok w') by (by apply storage_ok_step).
  destruct Hok as [? ?]. split_and!; [done..|]. by apply storage_ok_reload.
Qed.

Lemma best_scores_persist_witness :
  let w := run (removelast Sample.six_moves) Sample.playing in
  let w' := step (BoardClick (Some 20)) w in
  (Z.of_nat (moves (state w)) + 1 < 2 ^ 53)%Z
  ∧ best_get easy (bestScores (state w')) = Some (of_nat 6)
  ∧ bestScores (state (world_of (loadBestScores w'))) = bestScores (state w').
Proof.
  intros w w'.
  assert (Hm : (Z.of_nat (moves (state w)) + 1 < 2 ^ 53)%Z) by (by vm_compute).
  assert (He : best_get easy (bestScores (state w)) = stored w easy)
    by (vm_compute; reflexivity).
  assert (Hh : best_get hard (bestScores (state w)) = stored w hard)
    by (vm_compute; reflexivity).
  destruct (best_scores_persist (BoardClick (Some 20)) w Hm He Hh) as (_ & _ & H).
  split; [exact Hm|]. split; [vm_compute; reflexivity|exact H].
Defined.

(** *** The deck and the board *)

(** What [generateDeck] deals, whatever the draws. *)
Lemma dealt_deck entropy k k' d :
  let chosen := take (pairs (DIFFICULTIES d)) (Shuffle.shuffle entropy k GAME_DATA) in
  let cards := Shuffle.shuffle entropy k' (chosen ++ chosen) in
  length cards = 2 * pairs (DIFFICULTIES d)
  ∧ Forall (λ c, occurrences (name c) cards = 2) cards.
Proof.
  intros chosen cards.
  assert (Hpool : Shuffle.shuffle entropy k GAME_DATA ≡ₚ GAME_DATA)
    by apply ShuffleFacts.shuffle_perm.
  assert (Hlen : length chosen = pairs (DIFFICULTIES d)).
  { unfold chosen. rewrite length_take_le; [done|]. rewrite Hpool. destruct d; simpl; lia. }
  assert (Hnd : NoDup (name <$> chosen)).
  { unfold chosen. rewrite fmap_take.
    assert (NoDup (name <$> Shuffle.shuffle entropy k GAME_DATA))
      by (rewrite Hpool; apply GAME_DATA_names).
    eauto using sublist_NoDup, sublist_take. }
  assert (Hp : cards ≡ₚ chosen ++ chosen) by apply ShuffleFacts.shuffle_perm.
  split.
  - rewrite Hp, length_app. lia.
  - apply Forall_forall. intros c Hc.
    rewrite (occurrences_perm _ _ _ Hp), occurrences_app.
    rewrite Hp in Hc. apply elem_of_app in Hc.
    rewrite occurrences_once; [done|done|]. apply list_elem_of_fmap_2. tauto.
Qed.

Lemma index_of_alter_board f c els (board : list ref) :
  (∀ e, data_index (f e) = data_index e) →
  index_of (alter f c els) <$> board = index_of els <$> board.
Proof. intros Hf. apply list_fmap_ext. intros _ c' _. by apply index_of_alter. Qed.

Lemma index_of_fresh_board els n :
  index_of (els ++ (new_card <$> seq 0 n)) <$> seq (length els) n = Some <$> seq 0 n.
Proof.
  apply list_eq. intros i. rewrite !list_lookup_fmap.
  destruct (decide (i < n)) as [Hi|Hi].
  - rewrite !lookup_seq_lt by done. simpl. unfold index_of.
    rewrite lookup_app_r by lia. replace (length els + i - length els) with i by lia.
    by rewrite list_lookup_fmap, lookup_seq_lt.
  - by rewrite !lookup_seq_ge by lia.
Qed.

Lemma deck_ok_step ev w : deck_ok w → deck_ok (step ev w).
Proof.
  unfold deck_ok. open_world w.
  destruct ev as [[c|]| | | | v | h |]; js_cases.
  all: intros (? & ? & ?); rewrite ?index_of_alter_board by done; try done.
  all: split_and!; try apply dealt_deck; apply index_of_fresh_board.
Qed.

Lemma deck_ok_boot w : loaded_page w → deck_ok (world_of (boot w)).
Proof.
  open_loaded_page w. unfold deck_ok. js_eval.
  split_and!; try apply dealt_deck; apply index_of_fresh_board.
Qed.

Lemma reachable_deck_ok w : reachable w → deck_ok w.
Proof. induction 1; auto using deck_ok_boot, deck_ok_step. Qed.


(** *** No listener but the delayed callback throws *)

Lemma lookup_index_of (els : list CardEl) (c : ref) r :
  els !! c = r → index_of els c = data_index <$> r.
Proof. by intros <-. Qed.

Lemma lookup_alter_index_of f c (els : list CardEl) (c' : ref) r :
  (∀ e, data_index (f e) = data_index e) →
  alter f c els !! c' = r → index_of els c' = data_index <$> r.
Proof. intros Hf <-. symmetry. by apply index_of_alter. Qed.

Lemma listener_completes ev w :
  board_ok w → ev ≠ TimeoutFires → completes (listener ev w) = true.
Proof.
  unfold board_ok, selectable. open_world w.
  destruct ev as [[c|]| | | | v | h |]; js_cases; try done.
  all: intros (Hb & H1 & H2) _; exfalso.
  all: repeat match goal with
       | H : alter _ _ _ !! _ = _ |- _ => apply lookup_alter_index_of in H; [|done]
       | H : ?l !! _ = _ |- _ =>
           match type of l with list CardEl => apply lookup_index_of in H end
       end.
  all: repeat match goal with
       | H : ?c ∈ _ |- _ => destruct (Hb c H) as (? & ? & ?); clear H
       | H : ∀ c, Some ?n = Some c → _ |- _ =>
           destruct (Hb n (H n eq_refl)) as (? & ? & ?); clear H
       end.
  all: simplify_eq/=.
  all: match goal with
       | H : _ !! _ = None |- _ => apply lookup_ge_None in H; lia
       end.
Qed.


Lemma locked_timeout w :
  lockBoard (state w) = true → lock_ok w →
  completes (listener TimeoutFires w) = true
  ∧ lockBoard (state (step TimeoutFires w)) = false
  ∧ firstCard (state (step TimeoutFires w)) = None
  ∧ secondCard (state (step TimeoutFires w)) = None.
Proof.
  unfold lock_ok. open_world w. js_cases; try done.
  all: intros H Hl; destruct (Hl H) as ([? ?] & [? ?] & ?); by simplify_eq.
Qed.

(** *** Best scores only improve, and only their keys are written *)

Lemma step_best ev w mode :
  best_get mode (bestScores (state (step ev w))) = best_get mode (bestScores (state w))
  ∨ ∃ m, best_get mode (bestScores (state (step ev w))) = Some (of_nat m)
         ∧ match best_get mode (bestScores (state w)) with
           | Some old => nat_lt m old = true
           | None => True
           end.
Proof.
  open_world w. destruct mode, bestScores0.
  all: destruct ev as [[c|]| | | | v | h |]; js_cases; eauto.
Qed.

Lemma step_other_keys ev w key :
  key ≠ "mgBestMoves_easy" → key ≠ "mgBestMoves_hard" →
  localStorage (env (step ev w)) !! key = localStorage (env w) !! key.
Proof.
  open_world w. destruct ev as [[c|]| | | | v | h |]; js_cases; try done.
  all: intros ? ?.
  all: change ("mgBestMoves_" +:+ Difficulty_key easy) with "mgBestMoves_easy".
  all: change ("mgBestMoves_" +:+ Difficulty_key hard) with "mgBestMoves_hard".
  all: by rewrite lookup_insert_ne.
Qed.


Lemma run_cons ev evs w : run (ev :: evs) w = run evs (step ev w).
Proof. done. Qed.

(** *** Starting over *)

Lemma fresh_board (els : list CardEl) n :
  (λ c, (els ++ (new_card <$> seq 0 n)) !! c) <$> seq (length els) n
  = Some ∘ new_card <$> seq 0 n.
Proof.
  apply list_eq. intros i. rewrite !list_lookup_fmap.
  destruct (decide (i < n)) as [Hi|Hi].
  - rewrite !lookup_seq_lt by done. simpl.
    rewrite lookup_app_r by lia. replace (length els + i - length els) with i by lia.
    by rewrite list_lookup_fmap, lookup_seq_lt.
  - by rewrite !lookup_seq_ge by lia.
Qed.

(** X6. Whatever the world was (a game running, locked, paused or over),
    [startGame] leaves a game that is started and not paused, with both
    counters and the elapsed time at zero, empty slots, an unlocked and
    enabled board, the win message hidden and a new interval timer running;
    the deck has [2 * pairs] cards and the board shows them as that many new
    elements, in deck order, face-down and unmatched.  The difficulty, the
    best scores, the storage and the pending timeouts are what they were. *)
Theorem startGame_fresh (w : World) :
  let n := 2 * pairs (DIFFICULTIES (difficulty (state w))) in
  ∃ w', startGame w = Return () w'
  ∧ gameStarted (state w') = true ∧ paused (state w') = false
  ∧ moves (state w') = 0 ∧ matches (state w') = 0 ∧ elapsedMs (state w') = 0%Z
  ∧ firstCard (state w') = None ∧ secondCard (state w') = None
  ∧ lockBoard (state w') = false ∧ board_disabled (dom w') = false
  ∧ win_shown (dom w') = false
  ∧ timerInterval (state w') = Some (next_handle (env w))
  ∧ next_handle (env w) ∈ intervals (env w')
  ∧ length (deck (state w')) = n
  ∧ (λ c, card_elements (dom w') !! c) <$> board_cards (dom w') = Some ∘ new_card <$> seq 0 n
  ∧ difficulty (state w') = difficulty (state w)
  ∧ bestScores (state w') = bestScores (state w)
  ∧ localStorage (env w') = localStorage (env w)
  ∧ timeouts (env w') = timeouts (env w).
Proof.
  open_world w. js_cases.
  all: eexists; (split; [reflexivity|]); js_eval.
  all: pose proof (dealt_deck entropy0 drawn0
                     (drawn0 + Shuffle.shuffle_draws GAME_DATA) difficulty0) as [Hlen _].
  all: cbv zeta in Hlen; rewrite Hlen.
  all: split_and!; try done; try apply fresh_board.
  all: apply elem_of_app; right; apply list_elem_of_singleton; done.
Qed.

(** X7. A change of the difficulty selector, whatever the world was, leaves
    the new difficulty with a deck of twice its number of pairs on a new
    board, face-down; no game is started, no timer is kept in [state], the
    counters are zero and the board is disabled, so that clicks on the board
    and on the pause button change nothing.  The best scores and the storage
    are what they were. *)
Theorem difficulty_onchange_idle (value : Difficulty) (w : World) :
  let n := 2 * pairs (DIFFICULTIES value) in
  ∃ w', difficulty_onchange value w = Return () w'
  ∧ difficulty (state w') = value
  ∧ gameStarted (state w') = false ∧ paused (state w') = false
  ∧ moves (state w') = 0 ∧ matches (state w') = 0 ∧ elapsedMs (state w') = 0%Z
  ∧ firstCard (state w') = None ∧ secondCard (state w') = None
  ∧ lockBoard (state w') = false ∧ timerInterval (state w') = None
  ∧ board_disabled (dom w') = true ∧ win_shown (dom w') = false
  ∧ length (deck (state w')) = n
  ∧ (λ c, card_elements (dom w') !! c) <$> board_cards (dom w') = Some ∘ new_card <$> seq 0 n
  ∧ bestScores (state w') = bestScores (state w)
  ∧ localStorage (env w') = localStorage (env w)
  ∧ (∀ card, step (BoardClick card) w' = w')
  ∧ step PauseClick w' = w'.
Proof.
  open_world w. js_cases.
  all: eexists; (split; [reflexivity|]); js_eval.
  all: pose proof (dealt_deck entropy0 drawn0
                     (drawn0 + Shuffle.shuffle_draws GAME_DATA) value) as [Hlen _].
  all: cbv zeta in Hlen; rewrite Hlen.
  all: split_and!; try done; try apply fresh_board.
  all: intros [card|]; js_cases; done.
Qed.


(** *** Properties of every world the page can reach *)

(** X8. In every world the page can reach, [matches] never exceeds [moves]
    nor the number of pairs of the difficulty, it is below that number as
    long as the game is on, and the win message shows only when the game is
    over with all pairs matched, after at least as many moves as pairs. *)
Theorem reachable_counters (w : World) :
  reachable w →
  let total := pairs (DIFFICULTIES (difficulty (state w))) in
  matches (state w) ≤ moves (state w)
  ∧ matches (state w) ≤ total
  ∧ (gameStarted (state w) = true → matches (state w) < total)
  ∧ (win_shown (dom w) = true →
       gameStarted (state w) = false ∧ matches (state w) = total
       ∧ total ≤ moves (state w)).
Proof.
  intros (? & ? & ? & Hw)%reachable_counters_ok. simpl.
  split_and!; try done. intros [? ?]%Hw. split_and!; [done..|lia].
Qed.

Lemma reachable_counters_witness :
  reachable (run Sample.six_moves Sample.playing)
  ∧ win_shown (dom (run Sample.six_moves Sample.playing)) = true
  ∧ 6 ≤ moves (state (run Sample.six_moves Sample.playing)).
Proof.
  assert (Hw : win_shown (dom (run Sample.six_moves Sample.playing)) = true)
    by (vm_compute; reflexivity).
  split; [exact won_reachable|]. split; [exact Hw|].
  destruct (reachable_counters _ won_reachable) as (_ & _ & _ & H).
  exact (proj2 (proj2 (H Hw))).
Defined.

(** X9. In every world the page can reach the deck has twice as many cards
    as the difficulty has pairs, the symbol of each card is on exactly two
    cards, and the board has one element per card of the deck, in deck
    order, each carrying the position of its card as [data-index]. *)
Theorem reachable_deck (w : World) :
  reachable w →
  length (deck (state w)) = 2 * pairs (DIFFICULTIES (difficulty (state w)))
  ∧ Forall (λ c, occurrences (name c) (deck (state w)) = 2) (deck (state w))
  ∧ index_of (card_elements (dom w)) <$> board_cards (dom w)
    = Some <$> seq 0 (length (deck (state w))).
Proof. apply reachable_deck_ok. Qed.

Lemma reachable_deck_witness :
  reachable Sample.mismatched ∧ length (deck (state Sample.mismatched)) = 12.
Proof.
  split; [exact mismatched_reachable|].
  exact (proj1 (reachable_deck _ mismatched_reachable)).
Defined.

(** X10. In every world the page can reach the board is disabled exactly
    when no game is on or the game is paused, the start button is disabled
    exactly while a game is on and the pause button exactly while none is,
    the pause button reads Resume exactly while the game is paused, and a
    paused game is a started game. *)
Theorem reachable_controls (w : World) :
  reachable w →
  board_disabled (dom w) = negb (gameStarted (state w)) || paused (state w)
  ∧ startBtn_disabled (dom w) = gameStarted (state w)
  ∧ pauseBtn_disabled (dom w) = negb (gameStarted (state w))
  ∧ pauseBtn_text (dom w) = (if paused (state w) then "Resume" else "Pause")
  ∧ (paused (state w) = true → gameStarted (state w) = true).
Proof. apply reachable_controls_ok. Qed.

Lemma reachable_controls_witness :
  reachable Sample.on_hold ∧ pauseBtn_text (dom Sample.on_hold) = "Resume".
Proof.
  assert (Hr : reachable Sample.on_hold)
    by apply (reachable_run [PauseClick]), playing_reachable.
  split; [exact Hr|].
  exact (proj1 (proj2 (proj2 (proj2 (reachable_controls _ Hr))))).
Defined.

(** X11. In every world the page can reach, each display the page has is up
    to date: the moves display shows [moves], the matches display shows
    [matches] over the number of pairs, the best-score display shows the
    best scores of [state]. *)
Theorem reachable_displays (w : World) :
  reachable w →
  movesDisplay (dom w) = (λ _, String_ (moves (state w))) <$> movesDisplay (dom w)
  ∧ matchesDisplay (dom w)
    = (λ _, String_ (matches (state w)) +:+ "/"
            +:+ String_ (pairs (DIFFICULTIES (difficulty (state w)))))
        <$> matchesDisplay (dom w)
  ∧ bestScoreDisplay (dom w) = (λ _, bestScores (state w)) <$> bestScoreDisplay (dom w).
Proof. apply reachable_displays_ok. Qed.

Lemma reachable_displays_witness :
  reachable Sample.mismatched
  ∧ movesDisplay (dom Sample.mismatched) = Some "1"
  ∧ matchesDisplay (dom Sample.mismatched) = Some "0/6".
Proof.
  split; [exact mismatched_reachable|].
  split; [exact (proj1 (reachable_displays _ mismatched_reachable))
         |exact (proj1 (proj2 (reachable_displays _ mismatched_reachable)))].
Defined.

(** X12. Whatever events happen, a best score that is a whole number stays a
    whole number and never grows. *)
Theorem best_never_worse (evs : list Event) (w : World) (mode : Difficulty) (b : nat) :
  best_get mode (bestScores (state w)) = Some (of_nat b) →
  ∃ b', best_get mode (bestScores (state (run evs w))) = Some (of_nat b') ∧ b' ≤ b.
Proof.
  revert w b. induction evs as [|ev evs IH]; intros w b Hb; [by exists b|].
  rewrite run_cons.
  destruct (step_best ev w mode) as [Heq|(m & Hm & Hlt)].
  - apply IH. by rewrite Heq.
  - rewrite Hb, nat_lt_of_nat in Hlt. apply bool_decide_eq_true in Hlt.
    destruct (IH _ _ Hm) as (b' & ? & ?). exists b'. split; [done|lia].
Qed.

Lemma best_never_worse_witness :
  best_get easy (bestScores (state (run Sample.six_moves Sample.playing)))
  = Some (of_nat 6)
  ∧ ∃ b', best_get easy
            (bestScores (state (run (StartClick :: Sample.six_moves)
                                  (run Sample.six_moves Sample.playing))))
          = Some (of_nat b') ∧ b' ≤ 6.
Proof.
  assert (H : best_get easy (bestScores (state (run Sample.six_moves Sample.playing)))
              = Some (of_nat 6)) by (vm_compute; reflexivity).
  split; [exact H|]. exact (best_never_worse _ _ easy 6 H).
Defined.

(** X13. Whatever events happen, the script writes no key of the storage
    other than the two best-score keys. *)
Theorem storage_other_keys (evs : list Event) (w : World) (key : string) :
  key ≠ "mgBestMoves_easy" → key ≠ "mgBestMoves_hard" →
  localStorage (env (run evs w)) !! key = localStorage (env w) !! key.
Proof.
  intros He Hh. revert w. induction evs as [|ev evs IH]; intros w; [done|].
  rewrite run_cons, IH. by apply step_other_keys.
Qed.

Lemma storage_other_keys_witness :
  "theme" ≠ "mgBestMoves_easy" ∧ "theme" ≠ "mgBestMoves_hard"
  ∧ localStorage (env (run (StartClick :: Sample.six_moves)
                         (world_of (boot (Sample.page easy (<["theme" := "dark"]> ∅))))))
    !! "theme" = Some "dark".
Proof.
  assert (H1 : "theme" ≠ "mgBestMoves_easy") by done.
  assert (H2 : "theme" ≠ "mgBestMoves_hard") by done.
  split; [exact H1|]. split; [exact H2|].
  rewrite (storage_other_keys _ _ "theme" H1 H2). by vm_compute.
Defined.

(** X14. In every world the page can reach, no listener throws, the delayed
    callback apart: clicks on the board and on the buttons, a change of
    difficulty and the ticks of the clock run to their end. *)
Theorem listeners_never_throw (ev : Event) (w : World) :
  reachable w → ev ≠ TimeoutFires → completes (listener ev w) = true.
Proof. intros Hw%reachable_board_ok. by apply listener_completes. Qed.

Lemma listeners_never_throw_witness :
  reachable Sample.one_up ∧ BoardClick (Some 13) ≠ TimeoutFires
  ∧ completes (listener (BoardClick (Some 13)) Sample.one_up) = true.
Proof.
  assert (Hr : reachable Sample.one_up)
    by apply (reachable_run [BoardClick (Some 12)]), playing_reachable.
  assert (Hne : BoardClick (Some 13) ≠ TimeoutFires) by done.
  split; [exact Hr|]. split; [exact Hne|].
  exact (listeners_never_throw _ _ Hr Hne).
Defined.

(** X15. In every world the page can reach, a locked board has both slots
    filled and a callback pending, and the next timeout to fire runs to its
    end, empties the slots and unlocks the board. *)
Theorem locked_board_unlocks (w : World) :
  reachable w → lockBoard (state w) = true →
  is_Some (firstCard (state w)) ∧ is_Some (secondCard (state w))
  ∧ timeouts (env w) ≠ []
  ∧ completes (listener TimeoutFires w) = true
  ∧ lockBoard (state (step TimeoutFires w)) = false
  ∧ firstCard (state (step TimeoutFires w)) = None
  ∧ secondCard (state (step TimeoutFires w)) = None.
Proof.
  intros Hw%reachable_lock_ok Hl.
  destruct (Hw Hl) as (? & ? & ?). destruct (locked_timeout w Hl Hw) as (? & ? & ? & ?).
  by split_and!.
Qed.

Lemma locked_board_unlocks_witness :
  reachable Sample.mismatched ∧ lockBoard (state Sample.mismatched) = true
  ∧ lockBoard (state (step TimeoutFires Sample.mismatched)) = false.
Proof.
  assert (Hl : lockBoard (state Sample.mismatched) = true) by (vm_compute; reflexivity).
  split; [exact mismatched_reachable|]. split; [exact Hl|].
  exact (proj1 (proj2 (proj2 (proj2 (proj2
    (locked_board_unlocks _ mismatched_reachable Hl)))))).
Defined.

(** X16. Time spent paused is not counted.  In a world the page can reach,
    with a game on: after pause, resume, pause, [elapsedMs] has grown by the
    time from [startTime] to the first pause plus the time from the
    resumption to the second pause, the times being the successive readings
    of the clock (the reading in between is the tick [startTimer] makes). *)
Theorem paused_time_not_counted (w : World) :
  reachable w → gameStarted (state w) = true → paused (state w) = false →
  let t := clock (env w) in
  let r := clock_reads (env w) in
  let w' := run [PauseClick; PauseClick; PauseClick] w in
  paused (state w') = true
  ∧ timerInterval (state w') = None
  ∧ elapsedMs (state w')
    = (elapsedMs (state w) + (t r - startTime (state w))
       + (t (r + 3)%nat - t (r + 1)%nat))%Z.
Proof.
  intros Hw%reachable_timer_ok. revert Hw.
  unfold timer_ok, run. cbn [foldl]. open_world w. js_cases.
  all: try (intros (? & ? & ?) ? ?; simplify_eq).
  all: try (intros (? & [?|?]) ? ?; simplify_eq).
  all: replace (clock_reads0 + 3) with (S (S (S clock_reads0))) by lia.
  all: replace (clock_reads0 + 1) with (S clock_reads0) by lia.
  all: by split_and!.
Qed.

Lemma paused_time_not_counted_witness :
  reachable Sample.playing
  ∧ elapsedMs (state (run [PauseClick; PauseClick; PauseClick] Sample.playing)) = 4000%Z.
Proof.
  split; [exact playing_reachable|].
  destruct (paused_time_not_counted Sample.playing playing_reachable)
    as (_ & _ & H); [vm_compute; reflexivity..|].
  rewrite H. by vm_compute.
Defined.

End ExtraFacts.
